(** * Item-loader processors of [scrapy.contrib.loader.processor]

    A shallow embedding of the processors module and the properties of
    its composition model: [MapCompose], [Compose], [Filter], [Slice],
    [TakeFirst] and [Identity].

    Python values are a small inductive universe; user-supplied
    functions run in a state-and-exception monad that also records every
    invocation, so that "is (not) invoked" and "receives the context"
    are statements about the recorded calls. *)

From Stdlib Require Import ZArith List Bool Ascii String Lia.
From Stdlib Require Import SpecFloat.
From stdpp Require Import base option list strings gmap.

Local Open Scope string_scope.
Local Open Scope list_scope.
Local Open Scope Z_scope.

Set Warnings "-register-all".

(** ** Python values *)

(** The part of the Python object universe the processors are used on.
    A float is an IEEE 754 datum ([spec_float]); [str] and [unicode] are
    not told apart. *)
Inductive pyval : Type :=
  | VNone
  | VBool (b : bool)
  | VInt (z : Z)
  | VFloat (f : spec_float)
  | VStr (s : string)
  | VList (items : list pyval)
  | VTuple (items : list pyval).

(** [v is None] *)
Definition is_None (v : pyval) : bool :=
  match v with VNone => true | _ => false end.

(** [bool(v)]: the truth value of an object. *)
Definition truthy (v : pyval) : bool :=
  match v with
  | VNone => false
  | VBool b => b
  | VInt z => negb (z =? 0)
  | VFloat f => match f with S754_zero _ => false | _ => true end
  | VStr s => match s with EmptyString => false | String _ _ => true end
  | VList items | VTuple items =>
      match items with [] => false | _ :: _ => true end
  end.

(** The builtin [bool], as a callable. *)
Definition py_bool (v : pyval) : pyval := VBool (truthy v).

(** A number of the integer tower ([bool] is a subclass of [int]). *)
Definition as_int (v : pyval) : option Z :=
  match v with
  | VBool b => Some (if b then 1 else 0)
  | VInt z => Some z
  | _ => None
  end.

(** Exact comparison of a float with an integer, as [float.__eq__]
    does it. *)
Definition float_eq_int (f : spec_float) (z : Z) : bool :=
  match f with
  | S754_zero _ => z =? 0
  | S754_finite s m e =>
      let mz := if s then Z.neg m else Z.pos m in
      if 0 <=? e then z =? mz * 2 ^ e else z * 2 ^ (- e) =? mz
  | S754_infinity _ | S754_nan => false
  end.

(** [a == b] on the value universe: numbers compare by value across
    [bool], [int] and [float]; strings with strings; lists with lists and
    tuples with tuples, item by item; everything else is unequal. *)
Fixpoint py_eq (a b : pyval) : bool :=
  let fix items_eq (xs ys : list pyval) : bool :=
    match xs, ys with
    | [], [] => true
    | x :: xs', y :: ys' => py_eq x y && items_eq xs' ys'
    | _, _ => false
    end in
  match a, b with
  | VNone, VNone => true
  | VFloat f, VFloat g => SFeqb f g
  | VFloat f, (VBool _ | VInt _) =>
      match as_int b with Some z => float_eq_int f z | None => false end
  | (VBool _ | VInt _), VFloat g =>
      match as_int a with Some z => float_eq_int g z | None => false end
  | (VBool _ | VInt _), (VBool _ | VInt _) =>
      match as_int a, as_int b with
      | Some x, Some y => x =? y
      | _, _ => false
      end
  | VStr s, VStr t => String.eqb s t
  | VList xs, VList ys => items_eq xs ys
  | VTuple xs, VTuple ys => items_eq xs ys
  | _, _ => false
  end.

(** The items a [for] loop, [filter] or [list +=] obtains from a value;
    [None] stands for the [TypeError] of a value that is not iterable.
    A string iterates over its one-character strings. *)
Definition py_iter (v : pyval) : option (list pyval) :=
  match v with
  | VList items | VTuple items => Some items
  | VStr s => Some (map (fun c => VStr (String c EmptyString)) (list_ascii_of_string s))
  | VNone | VBool _ | VInt _ | VFloat _ => None
  end.

(** The sequences among the values (a string is a scalar here). *)
Definition is_sequence (v : pyval) : bool :=
  match v with VList _ | VTuple _ => true | _ => false end.

(** ** Contexts *)

(** A Python [dict] with string keys (keyword arguments, loader
    contexts). *)
Abbreviation dict := (gmap string pyval).

(** A loader context as the wrapped functions receive it: either a plain
    [dict], or a [MergeDict] instance built from several of them. *)
Inductive context : Type :=
  | PlainDict (d : dict)
  | MergeDict (dicts : list dict).

(** Modelled from the spec: the class [MergeDict] of
    [scrapy.utils.datatypes], whose source is missing.  It looks a key up
    in its dictionaries in the order they were given, so that the first
    one takes precedence on key collision. *)
Fixpoint MergeDict_get (dicts : list dict) (key : string) : option pyval :=
  match dicts with
  | [] => None
  | d :: rest =>
      match d !! key with
      | Some v => Some v
      | None => MergeDict_get rest key
      end
  end.

(** [context[key]], with [None] for a [KeyError]. *)
Definition context_get (c : context) (key : string) : option pyval :=
  match c with
  | PlainDict d => d !! key
  | MergeDict dicts => MergeDict_get dicts key
  end.

(** [if loader_context:] on the optional runtime argument: [None] and
    the empty [dict] are false. *)
Definition context_given (loader_context : option dict) : bool :=
  match loader_context with
  | None => false
  | Some d => negb (bool_decide (d = ∅))
  end.


(** ** Calls, exceptions and recorded invocations *)

(** A raised exception: its class and its arguments. *)
Record exn : Type := Exception { exn_class : string; exn_args : list pyval }.

Definition TypeError (msg : string) : exn := Exception "TypeError" [VStr msg].

(** What a call does: it returns a value or raises. *)
Inductive outcome (A : Type) : Type :=
  | Return (a : A)
  | Raise (e : exn).
Arguments Return {A} a.
Arguments Raise {A} e.

(** One invocation of a user-supplied function: which function, on which
    value, and the [loader_context] keyword it was given ([None] when it
    was called with the value only). *)
Record event : Type := Call {
  ev_func : string;
  ev_value : pyval;
  ev_context : option context
}.

Section Pipelines.

(** The state the user-supplied functions may read and change. *)
Context {W : Type}.

(** The store a call runs in: the functions' own state, and the
    invocations made so far, oldest first. *)
Record store : Type := Store { world : W; calls : list event }.

(** Computations of the module: state passing with exceptions. *)
Definition Py (A : Type) : Type := store -> outcome A * store.

Definition ret {A} (a : A) : Py A := fun s => (Return a, s).

Definition raise {A} (e : exn) : Py A := fun s => (Raise e, s).

Definition bind {A B} (m : Py A) (k : A -> Py B) : Py B :=
  fun s =>
    match m s with
    | (Return a, s') => k a s'
    | (Raise e, s') => (Raise e, s')
    end.

Notation "x <- c1 ;; c2" := (bind c1 (fun x => c2))
  (at level 100, c1 at next level, right associativity).

(** A function handed to a pipeline: its name, whether its signature
    declares a parameter named [loader_context], and what a call of it
    does to the functions' state. *)
Record pyfunc : Type := Func {
  func_name : string;
  declares_loader_context : bool;
  func_call : pyval -> option context -> W -> outcome pyval * W
}.

(** [f(value)] or [f(value, loader_context=c)]: run the body and record
    the invocation. *)
Definition invoke (f : pyfunc) (value : pyval) (c : option context) : Py pyval :=
  fun s =>
    let (r, w) := func_call f value c (world s) in
    (r, {| world := w; calls := calls s ++ [Call (func_name f) value c] |}).

(** Modelled from the spec: [arg_to_iter] of [scrapy.utils.misc], whose
    source is missing.  [None] becomes an empty sequence, an existing
    sequence passes through as it is, a scalar becomes a one-element
    sequence. *)
Definition arg_to_iter (arg : pyval) : pyval :=
  if is_None arg then VList []
  else if is_sequence arg then arg
  else VList [arg].

(** Modelled from the spec: [wrap_loader_context] of
    [scrapy.contrib.loader.common], whose source is missing.  For a
    function declaring [loader_context] the wrapper [g] satisfies
    [g(value) == f(value, loader_context=ctx)]; otherwise
    [g(value) == f(value)]. *)
Definition wrap_loader_context (f : pyfunc) (ctx : context) : pyval -> Py pyval :=
  fun value =>
    invoke f value (if declares_loader_context f then Some ctx else None).

(** *** [class MapCompose] *)

Record MapCompose : Type := {
  MapCompose_functions : list pyfunc;
  MapCompose_default_loader_context : dict
}.

(** [MapCompose.__init__(self, *functions, **default_loader_context)] *)
Definition MapCompose_init (functions : list pyfunc)
    (default_loader_context : dict) : MapCompose :=
  {| MapCompose_functions := functions;
     MapCompose_default_loader_context := default_loader_context |}.

(** The local [context] of [MapCompose.__call__]. *)
Definition MapCompose_context (self : MapCompose)
    (loader_context : option dict) : context :=
  match loader_context with
  | Some lc =>
      if context_given (Some lc)
      then MergeDict [lc; MapCompose_default_loader_context self]
      else PlainDict (MapCompose_default_loader_context self)
  | None => PlainDict (MapCompose_default_loader_context self)
  end.

(** The inner loop, [for v in values: next_values += arg_to_iter(func(v))],
    from the current [next_values]. *)
Fixpoint MapCompose_inner (func : pyval -> Py pyval) (values : list pyval)
    (next_values : list pyval) : Py (list pyval) :=
  match values with
  | [] => ret next_values
  | v :: rest =>
      r <- func v ;;
      match py_iter (arg_to_iter r) with
      | Some items => MapCompose_inner func rest (next_values ++ items)
      | None => raise (TypeError "object is not iterable")
      end
  end.

(** The outer loop, [for func in wrapped_funcs: ...; values = next_values]. *)
Fixpoint MapCompose_loop (wrapped_funcs : list (pyval -> Py pyval))
    (values : pyval) : Py pyval :=
  match wrapped_funcs with
  | [] => ret values
  | func :: rest =>
      match py_iter values with
      | Some vs =>
          next_values <- MapCompose_inner func vs [] ;;
          MapCompose_loop rest (VList next_values)
      | None => raise (TypeError "object is not iterable")
      end
  end.

(** [MapCompose.__call__(self, value, loader_context=None)] *)
Definition MapCompose_call (self : MapCompose) (value : pyval)
    (loader_context : option dict) : Py pyval :=
  let values := arg_to_iter value in
  let context := MapCompose_context self loader_context in
  let wrapped_funcs :=
    map (fun f => wrap_loader_context f context) (MapCompose_functions self) in
  MapCompose_loop wrapped_funcs values.

(** *** [class Compose] *)

Record Compose : Type := {
  Compose_functions : list pyfunc;
  Compose_stop_on_none : pyval;
  Compose_default_loader_context : dict
}.

(** [Compose.__init__(self, *functions, **default_loader_context)] *)
Definition Compose_init (functions : list pyfunc)
    (default_loader_context : dict) : Compose :=
  {| Compose_functions := functions;
     Compose_stop_on_none :=
       default (VBool true) (default_loader_context !! "stop_on_none");
     Compose_default_loader_context := default_loader_context |}.

(** The local [context] of [Compose.__call__]. *)
Definition Compose_context (self : Compose)
    (loader_context : option dict) : context :=
  match loader_context with
  | Some lc =>
      if context_given (Some lc)
      then MergeDict [lc; Compose_default_loader_context self]
      else PlainDict (Compose_default_loader_context self)
  | None => PlainDict (Compose_default_loader_context self)
  end.

(** The loop of [Compose.__call__]: [break] when the value is [None] and
    [stop_on_none] is true, else [value = func(value)]. *)
Fixpoint Compose_loop (stop_on_none : pyval)
    (wrapped_funcs : list (pyval -> Py pyval)) (value : pyval) : Py pyval :=
  match wrapped_funcs with
  | [] => ret value
  | func :: rest =>
      if is_None value && truthy stop_on_none then ret value
      else value' <- func value ;; Compose_loop stop_on_none rest value'
  end.

(** [Compose.__call__(self, value, loader_context=None)] *)
Definition Compose_call (self : Compose) (value : pyval)
    (loader_context : option dict) : Py pyval :=
  let context := Compose_context self loader_context in
  let wrapped_funcs :=
    map (fun f => wrap_loader_context f context) (Compose_functions self) in
  Compose_loop (Compose_stop_on_none self) wrapped_funcs value.

End Pipelines.

Arguments store W : clear implicits.
Arguments pyfunc W : clear implicits.
Arguments Py W A : clear implicits.
Arguments MapCompose W : clear implicits.
Arguments Compose W : clear implicits.

Notation "x <- c1 ;; c2" := (bind c1 (fun x => c2))
  (at level 100, c1 at next level, right associativity).

(** ** The primitive processors *)

(** A predicate handed to [Filter] or [TakeFirst]: a callable without
    effects, from a value to the value whose truth is tested. *)
Abbreviation callable := (pyval -> pyval).

(** An argument of a parameter that has a default value. *)
Inductive argument (A : Type) : Type :=
  | Omitted
  | Passed (a : A).
Arguments Omitted {A}.
Arguments Passed {A} a.

(** The default of the [function] parameter of [Filter] and [TakeFirst]:
    [lambda v: v is not None and v != ''] *)
Definition default_function : callable :=
  fun v => VBool (negb (is_None v) && negb (py_eq v (VStr ""))).

(** The builtin [filter(function, items)]; with [None] for the function
    the items themselves are tested. *)
Definition py_filter (function : option callable) (items : list pyval) : list pyval :=
  List.filter
    (fun v => match function with
              | None => truthy v
              | Some f => truthy (f v)
              end)
    items.

(** *** [class Filter] *)

Record Filter : Type := { Filter_function : option callable }.

(** [Filter.__init__(self, function=lambda v: v is not None and v != '')] *)
Definition Filter_init (function : argument (option callable)) : Filter :=
  {| Filter_function :=
       match function with
       | Omitted => Some default_function
       | Passed f => f
       end |}.

(** [Filter.__call__(self, values)]: [tuple(filter(self.function, values))] *)
Definition Filter_call (self : Filter) (values : pyval) : outcome pyval :=
  match py_iter values with
  | Some items => Return (VTuple (py_filter (Filter_function self) items))
  | None => Raise (TypeError "object is not iterable")
  end.

(** *** [class Slice] *)

(** A bound of a slice on a sequence of [len] items: [None] is the
    default; a negative index counts from the end; the result is clamped
    to [0..len]. *)
Definition slice_bound (len : Z) (i : option Z) (dflt : Z) : Z :=
  match i with
  | None => dflt
  | Some i => if i <? 0 then Z.max (i + len) 0 else Z.min i len
  end.

(** [items[b:e]] *)
Definition py_slice {A} (b e : option Z) (items : list A) : list A :=
  let len := Z.of_nat (length items) in
  let start := slice_bound len b 0 in
  let stop := slice_bound len e len in
  firstn (Z.to_nat (stop - start)) (skipn (Z.to_nat start) items).

Record Slice : Type := { Slice_begin : option Z; Slice_end : option Z }.

(** [Slice.__init__(self, begin=None, end=None)] *)
Definition Slice_init (begin end_ : option Z) : Slice :=
  {| Slice_begin := begin; Slice_end := end_ |}.

(** [Slice.__call__(self, values)]: [values[self.begin:self.end]]; a
    slice of a list is a list, of a tuple a tuple, of a string a string. *)
Definition Slice_call (self : Slice) (values : pyval) : outcome pyval :=
  let b := Slice_begin self in
  let e := Slice_end self in
  match values with
  | VList items => Return (VList (py_slice b e items))
  | VTuple items => Return (VTuple (py_slice b e items))
  | VStr s =>
      Return (VStr (string_of_list_ascii (py_slice b e (list_ascii_of_string s))))
  | VNone | VBool _ | VInt _ | VFloat _ =>
      Raise (TypeError "object is not subscriptable")
  end.

(** *** [class TakeFirst] *)

Record TakeFirst : Type := { TakeFirst_function : callable }.

(** [TakeFirst.__init__]: [self.function = bool if function is None else function] *)
Definition TakeFirst_init (function : argument (option callable)) : TakeFirst :=
  {| TakeFirst_function :=
       match function with
       | Omitted => default_function
       | Passed None => py_bool
       | Passed (Some f) => f
       end |}.

(** The loop of [TakeFirst.__call__]; falling off its end returns [None]. *)
Fixpoint TakeFirst_scan (function : callable) (values : list pyval) : pyval :=
  match values with
  | [] => VNone
  | value :: rest =>
      if truthy (function value) then value else TakeFirst_scan function rest
  end.

(** [TakeFirst.__call__(self, values)] *)
Definition TakeFirst_call (self : TakeFirst) (values : pyval) : outcome pyval :=
  match py_iter values with
  | Some items => Return (TakeFirst_scan (TakeFirst_function self) items)
  | None => Raise (TypeError "object is not iterable")
  end.

(** *** [class Identity] *)

(** [Identity.__call__(self, values)] *)
Definition Identity_call (values : pyval) : outcome pyval := Return values.

(** *** [class Join] *)

Record Join : Type := { Join_separator : pyval }.

(** [Join.__init__(self, separator=u' ')] *)
Definition Join_init (separator : argument pyval) : Join :=
  {| Join_separator :=
       match separator with
       | Omitted => VStr " "
       | Passed sep => sep
       end |}.

(** The items as strings; [None] when one of them is not a string. *)
Fixpoint strings_of (items : list pyval) : option (list string) :=
  match items with
  | [] => Some []
  | VStr s :: rest =>
      match strings_of rest with
      | Some strs => Some (s :: strs)
      | None => None
      end
  | _ :: _ => None
  end.

(** The method [sep.join(values)] of a string [sep]: the items of
    [values] with [sep] between them; a [TypeError] when [values] is not
    iterable or an item is not a string. *)
Definition str_join (sep : string) (values : pyval) : outcome pyval :=
  match py_iter values with
  | Some items =>
      match strings_of items with
      | Some strs => Return (VStr (String.concat sep strs))
      | None => Raise (TypeError "sequence item: expected string")
      end
  | None => Raise (TypeError "can only join an iterable")
  end.

(** [Join.__call__(self, values)]: [self.separator.join(values)]; only a
    string has the attribute [join]. *)
Definition Join_call (self : Join) (values : pyval) : outcome pyval :=
  match Join_separator self with
  | VStr sep => str_join sep values
  | VNone | VBool _ | VInt _ | VFloat _ | VList _ | VTuple _ =>
      Raise (Exception "AttributeError" [VStr "object has no attribute 'join'"])
  end.

(** ** The values of the docstrings *)

Definition zero_float : pyval := VFloat (S754_zero false).

(** [['A', 0, '', 0.0, None, -1]] *)
Definition sample : pyval :=
  VList [VStr "A"; VInt 0; VStr ""; zero_float; VNone; VInt (-1)].


(** [('A', 0), ('', 0), (None, 'A')] *)
Definition pairs : list pyval :=
  [VTuple [VInt 0; VStr "A"]; VTuple [VStr ""; VInt 0]; VTuple [VNone; VStr "A"]].

(** ** Vocabulary of the properties *)

(** [g(f(..))] for calls that may raise: [g] runs on what the first call
    returned, and an exception of the first call is the result. *)
Definition and_then (r : outcome pyval) (g : pyval -> outcome pyval) : outcome pyval :=
  match r with
  | Return v => g v
  | Raise e => Raise e
  end.

(** A [begin] that is [None], zero or negative, and an [end] that is
    [None], zero or positive. *)
Definition from_start_or_back (b : option Z) : Prop :=
  match b with None => True | Some i => i <= 0 end.

Definition to_end_or_front (e : option Z) : Prop :=
  match e with None => True | Some j => 0 <= j end.

(** The normalisation rule in the words of the spec, as the list of
    items: none for [None], the items of a sequence, the value alone for
    a scalar. *)
Definition normalized (v : pyval) : list pyval :=
  match v with
  | VNone => []
  | VList items | VTuple items => items
  | VBool _ | VInt _ | VFloat _ | VStr _ => [v]
  end.

(** [isinstance(v, basestring)] *)
Definition is_str (v : pyval) : bool :=
  match v with VStr _ => true | _ => false end.

(** The strings of [items] that are not empty, in order; the other
    items are left out. *)
Fixpoint present_strings (items : list pyval) : list string :=
  match items with
  | [] => []
  | VStr (String a s) :: rest => String a s :: present_strings rest
  | _ :: rest => present_strings rest
  end.

(** The sum of the lengths of the strings. *)
Definition total_length (strs : list string) : nat :=
  fold_right (fun s n => (String.length s + n)%nat) 0%nat strs.

(** What the [function] argument of [Filter] and of [TakeFirst] stands
    for, read off the argument itself: left out, an item is accepted
    when it is neither [None] nor the empty string; given as [None],
    when the item is true; given as a predicate, when the predicate
    finds it true. *)
Definition accepted (function : argument (option callable)) (v : pyval) : bool :=
  match function with
  | Omitted =>
      match v with
      | VNone => false
      | VStr EmptyString => false
      | _ => true
      end
  | Passed None => truthy v
  | Passed (Some p) => truthy (p v)
  end.

Section PipelineVocabulary.

Context {W : Type}.

Implicit Types (f : pyfunc W) (s : store W) (ctx : context).
Implicit Types (fs : list (pyfunc W)).

(** Every function of the chain is called in turn on the result of the
    one before it, with no test in between. *)
Fixpoint call_in_order (funcs : list (pyval -> Py W pyval)) (value : pyval) : Py W pyval :=
  match funcs with
  | [] => ret value
  | func :: rest => value' <- func value ;; call_in_order rest value'
  end.

(** A recorded call of a function of [fs] that was wrapped with [ctx]:
    the context as keyword when the function declares [loader_context],
    the value only when it does not. *)
Definition wrapped_call fs ctx (ev : event) : Prop :=
  exists f, f ∈ fs /\ ev_func ev = func_name f
            /\ ev_context ev = if declares_loader_context f then Some ctx else None.

(** From [s] to [s'] only calls satisfying [P] were recorded. *)
Definition records s s' (P : event -> Prop) : Prop :=
  exists new, calls s' = calls s ++ new /\ Forall P new.

(** [func] applied to every element of [xs] in order, from store [s]:
    the results, in element order, and the store at the end. *)
Inductive applied (func : pyval -> Py W pyval) :
    list pyval -> store W -> list pyval -> store W -> Prop :=
  | applied_nil s : applied func [] s [] s
  | applied_cons x xs s r s1 rs s2 :
      func x s = (Return r, s1) ->
      applied func xs s1 rs s2 ->
      applied func (x :: xs) s (r :: rs) s2.

(** The stages in the words of the spec: each function in order is
    applied to every element of the working sequence, and the normalised
    results, concatenated in element order, are the working sequence of
    the next stage. *)
Inductive staged :
    list (pyval -> Py W pyval) -> list pyval -> store W ->
    list pyval -> store W -> Prop :=
  | staged_nil xs s : staged [] xs s xs s
  | staged_cons func funcs xs s rs s1 ys s2 :
      applied func xs s rs s1 ->
      staged funcs (flat_map normalized rs) s1 ys s2 ->
      staged (func :: funcs) xs s ys s2.

(** A function that returns scalars only: never [None], never a
    sequence. *)
Definition returns_scalars f : Prop :=
  forall x c w r w',
    func_call f x c w = (Return r, w') ->
    is_None r = false /\ is_sequence r = false.

(** A function that always returns, and whose result on a value and a
    context does not depend on the state. *)
Definition stateless f : Prop :=
  forall x c, exists r, forall w, exists w', func_call f x c w = (Return r, w').

End PipelineVocabulary.

(** ** Sample functions *)

(** A function whose state is the number of calls made so far. *)
Definition counting (name : string) (declares : bool)
    (body : pyval -> option context -> outcome pyval) : pyfunc Z :=
  {| func_name := name;
     declares_loader_context := declares;
     func_call := fun v c w => (body v c, w + 1) |}.

(** [lambda v: None] *)
Definition to_none : pyfunc Z :=
  counting "to_none" false (fun _ _ => Return VNone).

(** [lambda v: v is None] *)
Definition is_none : pyfunc Z :=
  counting "is_none" false (fun v _ => Return (VBool (is_None v))).

(** [lambda v: [v, v]] *)
Definition twice : pyfunc Z :=
  counting "twice" false (fun v _ => Return (VList [v; v])).

(** [def with_unit(v, loader_context): return (v, loader_context['unit'])] *)
Definition with_unit : pyfunc Z :=
  counting "with_unit" true
    (fun v c =>
       match c with
       | Some ctx =>
           match context_get ctx "unit" with
           | Some u => Return (VTuple [v; u])
           | None => Raise (Exception "KeyError" [VStr "unit"])
           end
       | None => Raise (TypeError "with_unit() takes exactly 2 arguments")
       end).

(** [def reject_two(v)]: raises [ValueError(v)] on [2], returns [v]
    otherwise. *)
Definition reject_two : pyfunc Z :=
  counting "reject_two" false
    (fun v _ =>
       if py_eq v (VInt 2) then Raise (Exception "ValueError" [v])
       else Return v).

Definition start : store Z := {| world := 0; calls := [] |}.

Definition no_stop : dict := {["stop_on_none" := VBool false]}.

Definition runtime : dict := {["unit" := VStr "cm"]}.

Definition defaults : dict := <["unit" := VStr "m"]> {["lang" := VStr "en"]}.


(** * Properties *)

(** ** Values *)

Lemma py_eq_empty_str (v : pyval) : py_eq v (VStr "") = true <-> v = VStr "".
Proof.
  split.
  - destruct v as [| b | z | f | s | xs | xs]; simpl; try discriminate.
    intros H. apply String.eqb_eq in H. now subst.
  - intros ->. reflexivity.
Qed.

Lemma default_function_spec (v : pyval) :
  truthy (default_function v) = true <-> v <> VNone /\ v <> VStr "".
Proof.
  unfold default_function. simpl.
  rewrite andb_true_iff, !negb_true_iff.
  rewrite <- !not_true_iff_false, py_eq_empty_str.
  destruct v; simpl; intuition congruence.
Qed.

(** ** The docstrings of the module *)

(** [Filter()(['A', 0, '', 0.0, None, -1])] is [('A', 0, 0.0, -1)]. *)
Example Filter_docstring_default :
  Filter_call (Filter_init Omitted) sample
  = Return (VTuple [VStr "A"; VInt 0; zero_float; VInt (-1)]).
Proof. reflexivity. Qed.

(** [Slice()([2, 3, 5, 7])] is [[2, 3, 5, 7]] and
    [Slice(None, 3)([2, 3, 5, 7])] is [[2, 3, 5]]. *)
Example Slice_docstring :
  Slice_call (Slice_init None None) (VList (map VInt [2; 3; 5; 7]))
  = Return (VList (map VInt [2; 3; 5; 7]))
  /\ Slice_call (Slice_init None (Some 3)) (VList (map VInt [2; 3; 5; 7]))
     = Return (VList (map VInt [2; 3; 5])).
Proof. split; reflexivity. Qed.

(** [[TakeFirst(None)(c) for c in ((0,'A'), ('', 0), (None, 'A'))]] is
    [['A', None, 'A']]. *)
Example TakeFirst_docstring_None :
  map (TakeFirst_call (TakeFirst_init (Passed None))) pairs
  = [Return (VStr "A"); Return VNone; Return (VStr "A")].
Proof. reflexivity. Qed.

(** ** [Filter] *)

(** C1, as the code has it: [Filter(None)] hands [None] to the builtin
    [filter], which keeps the items that are true.  On any sequence it
    returns the tuple of its true items; on
    [['A', 0, '', 0.0, None, -1]] that is [('A', -1)], so [0], [''] and
    [0.0] go with [None].  The predicate [lambda v: v is not None] is
    the one that drops only [None] and returns
    [('A', 0, '', 0.0, -1)]. *)
Theorem Filter_None_keeps_true_items :
  (forall values items,
     py_iter values = Some items ->
     Filter_call (Filter_init (Passed None)) values
     = Return (VTuple (List.filter truthy items)))
  /\ Filter_call (Filter_init (Passed None)) sample
     = Return (VTuple [VStr "A"; VInt (-1)])
  /\ Filter_call
       (Filter_init (Passed (Some (fun v => VBool (negb (is_None v))))))
       sample
     = Return (VTuple [VStr "A"; VInt 0; VStr ""; zero_float; VInt (-1)]).
Proof.
  split; [| split]; try reflexivity.
  intros values items Hit. unfold Filter_call. now rewrite Hit.
Qed.

Lemma Filter_None_keeps_true_items_witness :
  Filter_call (Filter_init (Passed None)) (VTuple [VInt 0; VInt 7])
  = Return (VTuple (List.filter truthy [VInt 0; VInt 7])).
Proof.
  apply (proj1 Filter_None_keeps_true_items (VTuple [VInt 0; VInt 7])).
  reflexivity.
Defined.

(** C1 as the spec words it fails: [Filter(None)] on
    [['A', 0, '', 0.0, None, -1]] does not return
    [('A', 0, '', 0.0, -1)]. *)
Lemma Filter_None_not_only_None :
  Filter_call (Filter_init (Passed None)) sample
  <> Return (VTuple [VStr "A"; VInt 0; VStr ""; zero_float; VInt (-1)]).
Proof. vm_compute. discriminate. Qed.

(** ** [TakeFirst] *)

Lemma TakeFirst_scan_first (p : callable) (pre : list pyval) (x : pyval)
    (post : list pyval) :
  Forall (fun v => truthy (p v) = false) pre ->
  truthy (p x) = true ->
  TakeFirst_scan p (pre ++ x :: post) = x.
Proof.
  induction 1 as [| v pre Hv _ IH]; intros Hx; simpl.
  - now rewrite Hx.
  - rewrite Hv. now apply IH.
Qed.

Lemma TakeFirst_scan_none (p : callable) (items : list pyval) :
  Forall (fun v => truthy (p v) = false) items ->
  TakeFirst_scan p items = VNone.
Proof.
  induction 1 as [| v items Hv _ IH]; simpl; [reflexivity |].
  now rewrite Hv.
Qed.

Lemma default_function_accepted (v : pyval) :
  truthy (default_function v) = accepted Omitted v.
Proof.
  destruct v as [| b | z | f | s | xs | xs]; try reflexivity.
  now destruct s.
Qed.

Lemma TakeFirst_function_accepted (function : argument (option callable))
    (v : pyval) :
  truthy (TakeFirst_function (TakeFirst_init function) v) = accepted function v.
Proof.
  destruct function as [| [p |]]; simpl.
  - apply default_function_accepted.
  - reflexivity.
  - reflexivity.
Qed.

(** C5: [TakeFirst] scans the sequence in order and returns the first
    element its predicate accepts; without a match (the empty sequence
    included) it returns [None] and does not raise.  What is accepted
    is fixed by the argument: a predicate accepts what it finds true;
    the default accepts an element iff it is neither [None] nor the
    empty string, so [TakeFirst()] gives [0] on [(0, 'A')], [0] on
    [('', 0)] and ['A'] on [(None, 'A')]; with the predicate explicitly
    [None] the truth of the element itself is the test. *)
Theorem TakeFirst_first_accepted :
  (forall (function : argument (option callable)) values items,
     py_iter values = Some items ->
     let self := TakeFirst_init function in
     (forall pre x post,
        items = pre ++ x :: post ->
        Forall (fun v => accepted function v = false) pre ->
        accepted function x = true ->
        TakeFirst_call self values = Return x)
     /\ (Forall (fun v => accepted function v = false) items ->
         TakeFirst_call self values = Return VNone))
  /\ (forall (p : callable) v,
        truthy (TakeFirst_function (TakeFirst_init (Passed (Some p))) v)
        = truthy (p v))
  /\ (forall v,
        truthy (TakeFirst_function (TakeFirst_init Omitted) v) = true
        <-> v <> VNone /\ v <> VStr "")
  /\ map (TakeFirst_call (TakeFirst_init Omitted)) pairs
     = [Return (VInt 0); Return (VInt 0); Return (VStr "A")]
  /\ (forall v,
        truthy (TakeFirst_function (TakeFirst_init (Passed None)) v)
        = truthy v).
Proof.
  split; [| split; [| split; [| split]]].
  - intros function values items Hit self. subst self. unfold TakeFirst_call.
    rewrite Hit. split.
    + intros pre x post -> Hpre Hx. f_equal.
      apply TakeFirst_scan_first.
      * eapply Forall_impl; [exact Hpre |]. intros v Hv. cbv beta in Hv.
        now rewrite TakeFirst_function_accepted.
      * now rewrite TakeFirst_function_accepted.
    + intros Hall. f_equal. apply TakeFirst_scan_none.
      eapply Forall_impl; [exact Hall |]. intros v Hv. cbv beta in Hv.
      now rewrite TakeFirst_function_accepted.
  - reflexivity.
  - intros v. apply default_function_spec.
  - reflexivity.
  - reflexivity.
Qed.

Lemma TakeFirst_first_accepted_witness :
  TakeFirst_call (TakeFirst_init Omitted) (VList [VNone; VStr ""; VInt 0; VStr "A"])
  = Return (VInt 0)
  /\ TakeFirst_call (TakeFirst_init (Passed None)) (VTuple [VStr ""; VInt 0])
     = Return VNone
  /\ TakeFirst_call (TakeFirst_init Omitted) (VTuple []) = Return VNone
  /\ TakeFirst_call (TakeFirst_init (Passed (Some (fun v => VBool (is_None v)))))
       (VTuple [VStr "A"; VNone; VInt 0])
     = Return VNone
  /\ TakeFirst_call (TakeFirst_init (Passed (Some (fun v => VBool (py_eq v (VInt 0))))))
       (VList [VStr "A"; VNone; VInt 0; VStr "B"])
     = Return (VInt 0)
  /\ TakeFirst_call (TakeFirst_init (Passed (Some (fun v => VBool (py_eq v (VInt 0))))))
       (VList [VStr "A"; VNone])
     = Return VNone.
Proof.
  pose proof (proj1 TakeFirst_first_accepted) as H.
  split; [| split; [| split; [| split; [| split]]]].
  - destruct (H Omitted (VList [VNone; VStr ""; VInt 0; VStr "A"])
               [VNone; VStr ""; VInt 0; VStr "A"] eq_refl) as [Hfirst _].
    apply (Hfirst [VNone; VStr ""] (VInt 0) [VStr "A"]).
    + reflexivity.
    + repeat constructor.
    + reflexivity.
  - destruct (H (Passed None) (VTuple [VStr ""; VInt 0])
               [VStr ""; VInt 0] eq_refl) as [_ Hnone].
    apply Hnone. repeat constructor.
  - destruct (H Omitted (VTuple []) [] eq_refl) as [_ Hnone].
    apply Hnone. constructor.
  - destruct (H (Passed (Some (fun v => VBool (is_None v))))
               (VTuple [VStr "A"; VNone; VInt 0])
               [VStr "A"; VNone; VInt 0] eq_refl) as [Hfirst _].
    apply (Hfirst [VStr "A"] VNone [VInt 0]).
    + reflexivity.
    + repeat constructor.
    + reflexivity.
  - destruct (H (Passed (Some (fun v => VBool (py_eq v (VInt 0)))))
               (VList [VStr "A"; VNone; VInt 0; VStr "B"])
               [VStr "A"; VNone; VInt 0; VStr "B"] eq_refl) as [Hfirst _].
    apply (Hfirst [VStr "A"; VNone] (VInt 0) [VStr "B"]).
    + reflexivity.
    + repeat constructor.
    + reflexivity.
  - destruct (H (Passed (Some (fun v => VBool (py_eq v (VInt 0)))))
               (VList [VStr "A"; VNone]) [VStr "A"; VNone] eq_refl)
      as [_ Hnone].
    apply Hnone. repeat constructor.
Defined.

(** ** Reapplying a processor to its own result *)

Lemma filter_twice {A} (f : A -> bool) (l : list A) :
  List.filter f (List.filter f l) = List.filter f l.
Proof.
  induction l as [| a l IH]; simpl; [reflexivity |].
  destruct (f a) eqn:Hfa; simpl; [rewrite Hfa; f_equal |]; exact IH.
Qed.

Lemma Filter_call_twice (self : Filter) (values : pyval) :
  and_then (Filter_call self values) (Filter_call self) = Filter_call self values.
Proof.
  unfold Filter_call. destruct (py_iter values) as [items |]; simpl; [| reflexivity].
  unfold py_filter. now rewrite filter_twice.
Qed.

Lemma slice_bound_range (len : Z) (i : option Z) (dflt : Z) :
  0 <= len -> 0 <= dflt <= len -> 0 <= slice_bound len i dflt <= len.
Proof.
  intros Hlen Hd. unfold slice_bound. destruct i as [i |]; [| exact Hd].
  destruct (Z.ltb_spec i 0); lia.
Qed.

Lemma py_slice_length {A} (b e : option Z) (items : list A) :
  let len := Z.of_nat (length items) in
  Z.of_nat (length (py_slice b e items))
  = Z.max 0 (Z.min (slice_bound len e len - slice_bound len b 0)
                   (len - slice_bound len b 0)).
Proof.
  unfold py_slice. cbv zeta.
  pose proof (slice_bound_range (Z.of_nat (length items)) b 0) as Hstart.
  rewrite List.length_firstn, List.length_skipn. lia.
Qed.

Lemma py_slice_twice {A} (b e : option Z) (items : list A) :
  from_start_or_back b -> to_end_or_front e ->
  py_slice b e (py_slice b e items) = py_slice b e items.
Proof.
  intros Hb He.
  pose proof (py_slice_length b e items) as Hlen. cbv zeta in Hlen.
  set (r := py_slice b e items) in *.
  set (n := Z.of_nat (length items)) in *.
  assert (Hn : 0 <= n) by (subst n; lia).
  pose proof (slice_bound_range n b 0 Hn ltac:(lia)) as Hstart.
  pose proof (slice_bound_range n e n Hn ltac:(lia)) as Hstop.
  assert (Hb' : slice_bound (Z.of_nat (length r)) b 0 = 0).
  { destruct b as [i |]; [| reflexivity]. simpl in Hb.
    unfold slice_bound in *.
    destruct (Z.ltb_spec i 0); lia. }
  assert (He' : slice_bound (Z.of_nat (length r)) e (Z.of_nat (length r))
                = Z.of_nat (length r)).
  { destruct e as [j |]; [| reflexivity]. simpl in He.
    unfold slice_bound in *.
    destruct (Z.ltb_spec j 0); lia. }
  unfold py_slice at 1. cbv zeta. rewrite Hb', He'.
  rewrite Z.sub_0_r, Nat2Z.id. simpl. apply List.firstn_all.
Qed.

Lemma Slice_call_twice (b e : option Z) (values : pyval) :
  from_start_or_back b -> to_end_or_front e ->
  and_then (Slice_call (Slice_init b e) values) (Slice_call (Slice_init b e))
  = Slice_call (Slice_init b e) values.
Proof.
  intros Hb He.
  destruct values as [| x | z | f | s | items | items]; simpl; try reflexivity.
  - rewrite list_ascii_of_string_of_list_ascii. now rewrite py_slice_twice.
  - now rewrite py_slice_twice.
  - now rewrite py_slice_twice.
Qed.

(** C2, as the code has it: [Identity] and [Filter] with a pure
    predicate give the same result when reapplied to their own result,
    for every argument; [Slice(b, e)] does so whenever [b] is [None] or
    not positive and [e] is [None] or not negative.  On a list, a tuple
    or a string these calls return. *)
Theorem processors_idempotent :
  (forall s, and_then (Identity_call s) Identity_call = Identity_call s)
  /\ (forall (p : argument (option callable)) s,
        and_then (Filter_call (Filter_init p) s) (Filter_call (Filter_init p))
        = Filter_call (Filter_init p) s)
  /\ (forall b e s,
        from_start_or_back b -> to_end_or_front e ->
        and_then (Slice_call (Slice_init b e) s) (Slice_call (Slice_init b e))
        = Slice_call (Slice_init b e) s)
  /\ (forall (p : argument (option callable)) b e s items,
        py_iter s = Some items ->
        (exists r, Filter_call (Filter_init p) s = Return r)
        /\ (exists r, Slice_call (Slice_init b e) s = Return r)).
Proof.
  split; [| split; [| split]].
  - reflexivity.
  - intros p s. apply Filter_call_twice.
  - intros b e s. apply Slice_call_twice.
  - intros p b e s items Hit. split.
    + unfold Filter_call. rewrite Hit. eauto.
    + destruct s; try discriminate; simpl; eauto.
Qed.

Lemma processors_idempotent_witness :
  and_then (Slice_call (Slice_init (Some (-2)) (Some 3)) (VList (map VInt [2; 3; 5; 7])))
           (Slice_call (Slice_init (Some (-2)) (Some 3)))
  = Return (VList [VInt 5])
  /\ exists r, Filter_call (Filter_init Omitted) (VStr "ab") = Return r.
Proof.
  destruct processors_idempotent as (_ & _ & Hslice & Hret). split.
  - rewrite (Hslice (Some (-2)) (Some 3) (VList (map VInt [2; 3; 5; 7]))).
    + reflexivity.
    + simpl. lia.
    + simpl. lia.
  - apply (Hret Omitted None None (VStr "ab") [VStr "a"; VStr "b"]).
    reflexivity.
Defined.

(** C2 as the spec words it fails for [Slice]: [Slice(1, None)] maps
    [[1, 2, 3]] to [[2, 3]] and that to [[3]]. *)
Lemma Slice_not_idempotent :
  Slice_call (Slice_init (Some 1) None) (VList [VInt 1; VInt 2; VInt 3])
  = Return (VList [VInt 2; VInt 3])
  /\ and_then
       (Slice_call (Slice_init (Some 1) None) (VList [VInt 1; VInt 2; VInt 3]))
       (Slice_call (Slice_init (Some 1) None))
     <> Slice_call (Slice_init (Some 1) None) (VList [VInt 1; VInt 2; VInt 3]).
Proof. split; [reflexivity |]. vm_compute. discriminate. Qed.

(** ** The compositional processors *)

Section PipelineProperties.

Context {W : Type}.

Implicit Types (f g : pyfunc W) (s : store W) (ctx : context) (v : pyval).
Implicit Types (kw : dict) (lc : option dict) (fs : list (pyfunc W)).

(** *** Calls of a wrapped function *)

Lemma wrap_loader_context_run f ctx v s r w :
  func_call f v (if declares_loader_context f then Some ctx else None) (world s) = (r, w) ->
  wrap_loader_context f ctx v s
  = (r, {| world := w;
           calls := calls s ++
             [Call (func_name f) v
                (if declares_loader_context f then Some ctx else None)] |}).
Proof.
  intros Hcall. unfold wrap_loader_context, invoke. now rewrite Hcall.
Qed.

(** *** The loop of [Compose] *)

Lemma Compose_loop_break stop funcs v s :
  is_None v && truthy stop = true ->
  Compose_loop stop funcs v s = (Return v, s).
Proof.
  intros Hstop. destruct funcs as [| func rest]; simpl; [reflexivity |].
  now rewrite Hstop.
Qed.

Lemma Compose_loop_app stop (pre post : list (pyval -> Py W pyval)) v s :
  Compose_loop stop (pre ++ post) v s
  = match Compose_loop stop pre v s with
    | (Return v', s') => Compose_loop stop post v' s'
    | (Raise e, s') => (Raise e, s')
    end.
Proof.
  revert v s. induction pre as [| func pre IH]; intros v s; simpl.
  - reflexivity.
  - destruct (is_None v && truthy stop) eqn:Hstop.
    + unfold ret. now rewrite Compose_loop_break.
    + unfold bind. destruct (func v s) as [[v' | e] s']; [apply IH | reflexivity].
Qed.

Lemma Compose_loop_no_stop stop (funcs : list (pyval -> Py W pyval)) v s :
  truthy stop = false ->
  Compose_loop stop funcs v s = call_in_order funcs v s.
Proof.
  intros Hstop. revert v s.
  induction funcs as [| func rest IH]; intros v s; simpl; [reflexivity |].
  rewrite Hstop, andb_false_r. unfold bind.
  destruct (func v s) as [[v' | e] s']; [apply IH | reflexivity].
Qed.

(** C3: [stop_on_none] is read from the default context and is [True]
    when absent.  When it is true and the value is [None] before a
    stage, [Compose] returns [None] and invokes nothing more: after any
    stages [pre] that left [None], the call ends in the store they left;
    [Compose(f, g)(None)] returns [None] in an unchanged store.  A stage
    is called whenever the value is not [None] or [stop_on_none] is
    false.  When [stop_on_none] is false every function is called in
    order: [Compose(f, g, stop_on_none=False)(None)] calls [f(None)],
    then [g] on its result, and returns what [g] returns. *)
Theorem Compose_stop_on_none_short_circuit :
  (forall fs kw,
     Compose_stop_on_none (Compose_init fs kw)
     = default (VBool true) (kw !! "stop_on_none"))
  /\ (forall (self : Compose W) pre rest v lc s s',
        truthy (Compose_stop_on_none self) = true ->
        Compose_functions self = pre ++ rest ->
        Compose_loop (Compose_stop_on_none self)
          (map (fun f => wrap_loader_context f (Compose_context self lc)) pre) v s
        = (Return VNone, s') ->
        Compose_call self v lc s = (Return VNone, s'))
  /\ (forall f g kw lc s,
        truthy (default (VBool true) (kw !! "stop_on_none")) = true ->
        Compose_call (Compose_init [f; g] kw) VNone lc s = (Return VNone, s))
  /\ (forall stop (func : pyval -> Py W pyval) rest v s,
        is_None v && truthy stop = false ->
        Compose_loop stop (func :: rest) v s
        = (v' <- func v ;; Compose_loop stop rest v') s)
  /\ (forall (self : Compose W) v lc s,
        truthy (Compose_stop_on_none self) = false ->
        Compose_call self v lc s
        = call_in_order
            (map (fun f => wrap_loader_context f (Compose_context self lc))
                 (Compose_functions self)) v s)
  /\ (forall f g kw lc s r1 w1 r2 w2,
        kw !! "stop_on_none" = Some (VBool false) ->
        let self := Compose_init [f; g] kw in
        let given h :=
          if declares_loader_context h then Some (Compose_context self lc)
          else None in
        func_call f VNone (given f) (world s) = (Return r1, w1) ->
        func_call g r1 (given g) w1 = (r2, w2) ->
        Compose_call self VNone lc s
        = (r2, {| world := w2;
                  calls := calls s ++ [Call (func_name f) VNone (given f);
                                       Call (func_name g) r1 (given g)] |})).
Proof.
  repeat split.
  - intros self pre rest v lc s s' Hstop Hfs Hpre.
    unfold Compose_call. rewrite Hfs, map_app, Compose_loop_app, Hpre.
    now apply Compose_loop_break.
  - intros f g kw lc s Hstop. unfold Compose_call.
    now apply Compose_loop_break.
  - intros stop func rest v s Hgo. simpl. now rewrite Hgo.
  - intros self v lc s Hstop. unfold Compose_call.
    now apply Compose_loop_no_stop.
  - intros f g kw lc s r1 w1 r2 w2 Hkw self given Hf Hg.
    unfold Compose_call. rewrite Compose_loop_no_stop.
    2:{ simpl. now rewrite Hkw. }
    simpl. unfold bind.
    rewrite (wrap_loader_context_run _ _ _ _ _ _ Hf).
    cbn [world calls].
    erewrite wrap_loader_context_run by (cbn [world]; exact Hg).
    cbn [world calls]. destruct r2; unfold ret; rewrite <- app_assoc; reflexivity.
Qed.

(** *** Pipelines without functions *)

(** C9: [Compose()] is the identity, [Compose()(v) == v] for every
    value, while [MapCompose()(v)] is the normalisation of [v]: the
    empty list for [None], the list [[v]] for a scalar and the sequence
    itself otherwise; so [MapCompose()] is not the identity on [None]
    and on scalars.  Neither call invokes anything. *)
Theorem empty_pipelines :
  (forall kw v lc s,
     Compose_call (Compose_init (W := W) [] kw) v lc s = (Return v, s))
  /\ (forall kw v lc s,
        MapCompose_call (MapCompose_init (W := W) [] kw) v lc s
        = (Return (arg_to_iter v), s))
  /\ arg_to_iter VNone = VList []
  /\ (forall v,
        is_None v = false -> is_sequence v = false ->
        arg_to_iter v = VList [v])
  /\ (forall v, is_sequence v = true -> arg_to_iter v = v)
  /\ (forall v, is_sequence v = false -> arg_to_iter v <> v).
Proof.
  repeat split.
  - intros v Hn Hs. unfold arg_to_iter. now rewrite Hn, Hs.
  - intros v Hs. unfold arg_to_iter. rewrite Hs. now destruct v.
  - intros v Hs Heq. destruct v; simpl in *; discriminate.
Qed.

(** *** The context without a runtime context *)

(** C10: when the runtime context is [None] or an empty mapping, the
    context the functions are wrapped with is the pipeline's own default
    context, not a [MergeDict]; a [MergeDict], in which runtime entries
    override, is built only from a runtime context that is not empty. *)
Theorem default_context_without_runtime_context :
  (forall lc,
     lc = None \/ lc = Some ∅ ->
     (forall (self : Compose W),
        Compose_context self lc = PlainDict (Compose_default_loader_context self))
     /\ (forall (self : MapCompose W),
           MapCompose_context self lc
           = PlainDict (MapCompose_default_loader_context self))
     /\ (forall (self : Compose W) v,
           Compose_call self v lc
           = Compose_loop (Compose_stop_on_none self)
               (map (fun f => wrap_loader_context f
                                (PlainDict (Compose_default_loader_context self)))
                    (Compose_functions self)) v)
     /\ (forall (self : MapCompose W) v,
           MapCompose_call self v lc
           = MapCompose_loop
               (map (fun f => wrap_loader_context f
                                (PlainDict (MapCompose_default_loader_context self)))
                    (MapCompose_functions self)) (arg_to_iter v)))
  /\ (forall (self : Compose W) lc dicts,
        Compose_context self lc = MergeDict dicts ->
        exists d, lc = Some d /\ d <> ∅
                  /\ dicts = [d; Compose_default_loader_context self])
  /\ (forall (self : MapCompose W) lc dicts,
        MapCompose_context self lc = MergeDict dicts ->
        exists d, lc = Some d /\ d <> ∅
                  /\ dicts = [d; MapCompose_default_loader_context self]).
Proof.
  split; [| split].
  - intros lc [-> | ->]; repeat split.
  - intros self [d |] dicts; simpl; [| discriminate].
    case_bool_decide as Hd; simpl; [discriminate |].
    intros [= <-]. eauto.
  - intros self [d |] dicts; simpl; [| discriminate].
    case_bool_decide as Hd; simpl; [discriminate |].
    intros [= <-]. eauto.
Qed.

(** *** What the functions of a chain are called with *)

Lemma records_refl s P : records s s P.
Proof. exists []. split; [now rewrite app_nil_r | constructor]. Qed.

Lemma records_trans s1 s2 s3 P :
  records s1 s2 P -> records s2 s3 P -> records s1 s3 P.
Proof.
  intros (n1 & H1 & F1) (n2 & H2 & F2). exists (n1 ++ n2). split.
  - now rewrite H2, H1, app_assoc.
  - apply Forall_app. now split.
Qed.

Lemma wrap_loader_context_records fs f ctx v s :
  f ∈ fs ->
  records s (wrap_loader_context f ctx v s).2 (wrapped_call fs ctx).
Proof.
  intros Hf. unfold wrap_loader_context, invoke.
  destruct (func_call f v _ (world s)) as [r w]. simpl.
  eexists. split; [reflexivity |].
  constructor; [| constructor]. exists f. auto.
Qed.

Lemma Compose_loop_records fs ctx stop (l : list (pyfunc W)) v s :
  (forall f, f ∈ l -> f ∈ fs) ->
  records s
    (Compose_loop stop (map (fun f => wrap_loader_context f ctx) l) v s).2
    (wrapped_call fs ctx).
Proof.
  revert v s. induction l as [| f l IH]; intros v s Hin; simpl.
  - apply records_refl.
  - destruct (is_None v && truthy stop); [apply records_refl |].
    unfold bind.
    pose proof (wrap_loader_context_records fs f ctx v s
                  (Hin f ltac:(left))) as Hf.
    destruct (wrap_loader_context f ctx v s) as [[v' | e] s']; simpl in *.
    + eapply records_trans; [exact Hf |].
      apply IH. intros h Hh. apply Hin. now right.
    + exact Hf.
Qed.

Lemma MapCompose_inner_records fs ctx f (values acc : list pyval) s :
  f ∈ fs ->
  records s
    (MapCompose_inner (wrap_loader_context f ctx) values acc s).2
    (wrapped_call fs ctx).
Proof.
  intros Hf. revert acc s.
  induction values as [| x values IH]; intros acc s; simpl.
  - apply records_refl.
  - unfold bind.
    pose proof (wrap_loader_context_records fs f ctx x s Hf) as Hx.
    destruct (wrap_loader_context f ctx x s) as [[r | e] s']; simpl in *.
    + destruct (py_iter (arg_to_iter r)) as [items |]; [| exact Hx].
      eapply records_trans; [exact Hx | apply IH].
    + exact Hx.
Qed.

Lemma MapCompose_loop_records fs ctx (l : list (pyfunc W)) (values : pyval) s :
  (forall f, f ∈ l -> f ∈ fs) ->
  records s
    (MapCompose_loop (map (fun f => wrap_loader_context f ctx) l) values s).2
    (wrapped_call fs ctx).
Proof.
  revert values s. induction l as [| f l IH]; intros values s Hin; simpl.
  - apply records_refl.
  - destruct (py_iter values) as [vs |]; [| apply records_refl].
    unfold bind.
    pose proof (MapCompose_inner_records fs ctx f vs [] s
                  (Hin f ltac:(left))) as Hf.
    destruct (MapCompose_inner (wrap_loader_context f ctx) vs [] s)
      as [[next | e] s']; simpl in *.
    + eapply records_trans; [exact Hf |].
      apply IH. intros h Hh. apply Hin. now right.
    + exact Hf.
Qed.

Lemma MergeDict_get_pair (d dflt : dict) (key : string) :
  context_get (MergeDict [d; dflt]) key
  = match d !! key with Some x => Some x | None => dflt !! key end.
Proof.
  simpl. destruct (d !! key); [reflexivity |]. now destruct (dflt !! key).
Qed.

(** C8: [Compose.__init__] reads [stop_on_none] with [get] and stores
    the keyword arguments whole, so after [Compose(..., stop_on_none=b)]
    the key is still an entry of the default context, and of the context
    of every call, whatever the runtime context; every function of the
    chain that declares [loader_context] is called with a context that
    has the key. *)
Theorem stop_on_none_stays_in_context :
  forall fs kw b,
    kw !! "stop_on_none" = Some b ->
    let self := Compose_init fs kw in
    Compose_stop_on_none self = b
    /\ Compose_default_loader_context self !! "stop_on_none" = Some b
    /\ forall lc,
         is_Some (context_get (Compose_context self lc) "stop_on_none")
         /\ forall v s,
              exists new,
                calls (Compose_call self v lc s).2 = calls s ++ new
                /\ Forall (fun ev =>
                     exists f, f ∈ fs /\ ev_func ev = func_name f
                       /\ (declares_loader_context f = true ->
                           exists c, ev_context ev = Some c
                             /\ is_Some (context_get c "stop_on_none")))
                     new.
Proof.
  intros fs kw b Hkw self. split; [| split].
  - simpl. now rewrite Hkw.
  - exact Hkw.
  - intros lc.
    assert (Hkey : is_Some (context_get (Compose_context self lc) "stop_on_none")).
    { destruct lc as [d |]; simpl; [| rewrite Hkw; eauto].
      case_bool_decide; simpl.
      - rewrite Hkw; eauto.
      - destruct (d !! "stop_on_none"); [eauto |]. rewrite Hkw; eauto. }
    split; [exact Hkey |]. intros v s.
    destruct (Compose_loop_records fs (Compose_context self lc)
                (Compose_stop_on_none self) fs v s (fun f H => H))
      as (new & Hnew & Hall).
    exists new. split; [exact Hnew |].
    eapply Forall_impl; [exact Hall |].
    intros ev (f & Hf & Hname & Hev). exists f. repeat split; try assumption.
    intros Hdecl. rewrite Hdecl in Hev. eauto.
Qed.

(** *** Exceptions *)

Lemma MapCompose_inner_app (func : pyval -> Py W pyval)
    (xs ys acc : list pyval) s :
  MapCompose_inner func (xs ++ ys) acc s
  = match MapCompose_inner func xs acc s with
    | (Return acc', s') => MapCompose_inner func ys acc' s'
    | (Raise e, s') => (Raise e, s')
    end.
Proof.
  revert acc s. induction xs as [| x xs IH]; intros acc s; simpl.
  - reflexivity.
  - unfold bind. destruct (func x s) as [[r | e] s']; [| reflexivity].
    destruct (py_iter (arg_to_iter r)) as [items |]; [apply IH | reflexivity].
Qed.

Lemma MapCompose_loop_app (pre post : list (pyval -> Py W pyval))
    (values : pyval) s :
  MapCompose_loop (pre ++ post) values s
  = match MapCompose_loop pre values s with
    | (Return values', s') => MapCompose_loop post values' s'
    | (Raise e, s') => (Raise e, s')
    end.
Proof.
  revert values s. induction pre as [| func pre IH]; intros values s; simpl.
  - reflexivity.
  - destruct (py_iter values) as [vs |]; [| reflexivity].
    unfold bind.
    destruct (MapCompose_inner func vs [] s) as [[next | e] s'];
      [apply IH | reflexivity].
Qed.

(** C7: an exception raised by a function of the chain is the result of
    the call, unchanged, and the call of that function is the last one
    made.  For [Compose]: after the stages [pre] have returned [v'] and
    the loop goes on, [f] raising on [v'] makes the whole call raise the
    same exception.  For [MapCompose]: after the stages [pre], and after
    [f] has returned on the elements before [x], [f] raising on [x]
    makes the whole call raise the same exception. *)
Theorem exceptions_propagate :
  (forall (self : Compose W) pre f post v lc s v' s' e w,
     Compose_functions self = pre ++ f :: post ->
     let ctx := Compose_context self lc in
     let given := if declares_loader_context f then Some ctx else None in
     Compose_loop (Compose_stop_on_none self)
       (map (fun h => wrap_loader_context h ctx) pre) v s = (Return v', s') ->
     is_None v' && truthy (Compose_stop_on_none self) = false ->
     func_call f v' given (world s') = (Raise e, w) ->
     Compose_call self v lc s
     = (Raise e, {| world := w;
                    calls := calls s' ++ [Call (func_name f) v' given] |}))
  /\ (forall (self : MapCompose W) pre f post v lc s values s1
             before x after acc s2 e w,
        MapCompose_functions self = pre ++ f :: post ->
        let ctx := MapCompose_context self lc in
        let given := if declares_loader_context f then Some ctx else None in
        MapCompose_loop (map (fun h => wrap_loader_context h ctx) pre)
          (arg_to_iter v) s = (Return values, s1) ->
        py_iter values = Some (before ++ x :: after) ->
        MapCompose_inner (wrap_loader_context f ctx) before [] s1
        = (Return acc, s2) ->
        func_call f x given (world s2) = (Raise e, w) ->
        MapCompose_call self v lc s
        = (Raise e, {| world := w;
                       calls := calls s2 ++ [Call (func_name f) x given] |})).
Proof.
  split.
  - intros self pre f post v lc s v' s' e w Hfs ctx given Hpre Hgo Hf.
    unfold Compose_call. fold ctx.
    rewrite Hfs, map_app, Compose_loop_app, Hpre. simpl. rewrite Hgo.
    unfold bind. now rewrite (wrap_loader_context_run _ _ _ _ _ _ Hf).
  - intros self pre f post v lc s values s1 before x after acc s2 e w
      Hfs ctx given Hpre Hit Hbefore Hf.
    unfold MapCompose_call. fold ctx.
    rewrite Hfs, map_app, MapCompose_loop_app, Hpre. simpl. rewrite Hit.
    unfold bind at 1. rewrite MapCompose_inner_app, Hbefore. simpl.
    unfold bind. now rewrite (wrap_loader_context_run _ _ _ _ _ _ Hf).
Qed.

(** *** [MapCompose] stage by stage *)

Lemma py_iter_arg_to_iter v : py_iter (arg_to_iter v) = Some (normalized v).
Proof. now destruct v. Qed.

Lemma MapCompose_inner_applied (func : pyval -> Py W pyval) xs s rs s' :
  applied func xs s rs s' ->
  forall acc,
    MapCompose_inner func xs acc s = (Return (acc ++ flat_map normalized rs), s').
Proof.
  induction 1 as [s | x xs s r s1 rs s2 Hx _ IH]; intros acc; simpl.
  - now rewrite app_nil_r.
  - unfold bind. rewrite Hx, py_iter_arg_to_iter, IH. now rewrite app_assoc.
Qed.

Lemma MapCompose_loop_staged (funcs : list (pyval -> Py W pyval)) xs s ys s' :
  staged funcs xs s ys s' ->
  MapCompose_loop funcs (VList xs) s = (Return (VList ys), s').
Proof.
  induction 1 as [xs s | func funcs xs s rs s1 ys s2 Happ _ IH]; simpl.
  - reflexivity.
  - unfold bind. rewrite (MapCompose_inner_applied _ _ _ _ _ Happ). exact IH.
Qed.

Lemma applied_total (func : pyval -> Py W pyval) :
  (forall x s, exists r s', func x s = (Return r, s')) ->
  forall xs s, exists rs s', applied func xs s rs s'.
Proof.
  intros Hfunc. induction xs as [| x xs IH]; intros s.
  - exists [], s. constructor.
  - destruct (Hfunc x s) as (r & s1 & Hx).
    destruct (IH s1) as (rs & s2 & Hxs).
    exists (r :: rs), s2. econstructor; eassumption.
Qed.

Lemma staged_total (funcs : list (pyval -> Py W pyval)) :
  Forall (fun func => forall x s, exists r s', func x s = (Return r, s')) funcs ->
  forall xs s, exists ys s', staged funcs xs s ys s'.
Proof.
  induction 1 as [| func funcs Hfunc _ IH]; intros xs s.
  - exists xs, s. constructor.
  - destruct (applied_total func Hfunc xs s) as (rs & s1 & Happ).
    destruct (IH (flat_map normalized rs) s1) as (ys & s2 & Hst).
    exists ys, s2. econstructor; eassumption.
Qed.

(** C6: in a call of [Compose] or [MapCompose] with a runtime context
    that is not empty, the functions are wrapped with the [MergeDict] of
    the runtime context and the pipeline's defaults, in which a key of
    the runtime context has the runtime value and any other key the
    default one; every call made is a call of a function of the chain,
    with that merged context as [loader_context] when the function
    declares the parameter and with the value only when it does not.
    And the calls are made: wherever a function [f] stands in the chain,
    once the run has reached it ([Compose]: the stages before it have
    returned [v'] and the loop goes on; [MapCompose]: the stages before
    it and [f] on the items before [x] have returned), the call is what
    [f] itself does on that value with that context or with the value
    only, recorded as such, and the run goes on from its result. *)
Theorem runtime_context_overrides_defaults :
  forall (d : dict),
    d <> ∅ ->
    (forall (self : Compose W) v s,
       let ctx := MergeDict [d; Compose_default_loader_context self] in
       Compose_context self (Some d) = ctx
       /\ exists new,
            calls (Compose_call self v (Some d) s).2 = calls s ++ new
            /\ Forall (fun ev =>
                 exists f, f ∈ Compose_functions self
                   /\ ev_func ev = func_name f
                   /\ ev_context ev
                      = if declares_loader_context f then Some ctx else None)
                 new)
    /\ (forall (self : MapCompose W) v s,
          let ctx := MergeDict [d; MapCompose_default_loader_context self] in
          MapCompose_context self (Some d) = ctx
          /\ exists new,
               calls (MapCompose_call self v (Some d) s).2 = calls s ++ new
               /\ Forall (fun ev =>
                    exists f, f ∈ MapCompose_functions self
                      /\ ev_func ev = func_name f
                      /\ ev_context ev
                         = if declares_loader_context f then Some ctx else None)
                    new)
    /\ (forall (dflt : dict) key,
          context_get (MergeDict [d; dflt]) key
          = match d !! key with Some x => Some x | None => dflt !! key end)
    /\ (forall (self : Compose W) pre f post v s v' s' r w,
          Compose_functions self = pre ++ f :: post ->
          let ctx := MergeDict [d; Compose_default_loader_context self] in
          let given := if declares_loader_context f then Some ctx else None in
          Compose_loop (Compose_stop_on_none self)
            (map (fun h => wrap_loader_context h ctx) pre) v s = (Return v', s') ->
          is_None v' && truthy (Compose_stop_on_none self) = false ->
          func_call f v' given (world s') = (r, w) ->
          let s'' := {| world := w;
                        calls := calls s' ++ [Call (func_name f) v' given] |} in
          Compose_call self v (Some d) s
          = match r with
            | Return v'' =>
                Compose_loop (Compose_stop_on_none self)
                  (map (fun h => wrap_loader_context h ctx) post) v'' s''
            | Raise e => (Raise e, s'')
            end)
    /\ (forall (self : MapCompose W) pre f post v s values s1
               before x after acc s2 r w,
          MapCompose_functions self = pre ++ f :: post ->
          let ctx := MergeDict [d; MapCompose_default_loader_context self] in
          let given := if declares_loader_context f then Some ctx else None in
          MapCompose_loop (map (fun h => wrap_loader_context h ctx) pre)
            (arg_to_iter v) s = (Return values, s1) ->
          py_iter values = Some (before ++ x :: after) ->
          MapCompose_inner (wrap_loader_context f ctx) before [] s1
          = (Return acc, s2) ->
          func_call f x given (world s2) = (r, w) ->
          let s3 := {| world := w;
                       calls := calls s2 ++ [Call (func_name f) x given] |} in
          MapCompose_call self v (Some d) s
          = match r with
            | Return y =>
                (next <- MapCompose_inner (wrap_loader_context f ctx) after
                           (acc ++ normalized y) ;;
                 MapCompose_loop (map (fun h => wrap_loader_context h ctx) post)
                   (VList next)) s3
            | Raise e => (Raise e, s3)
            end).
Proof.
  intros d Hd.
  assert (HctxC : forall self : Compose W,
            Compose_context self (Some d)
            = MergeDict [d; Compose_default_loader_context self]).
  { intros self. unfold Compose_context, context_given.
    now rewrite bool_decide_eq_false_2. }
  assert (HctxM : forall self : MapCompose W,
            MapCompose_context self (Some d)
            = MergeDict [d; MapCompose_default_loader_context self]).
  { intros self. unfold MapCompose_context, context_given.
    now rewrite bool_decide_eq_false_2. }
  split; [| split; [| split; [| split]]].
  - intros self v s ctx. split; [apply HctxC |].
    unfold Compose_call. rewrite HctxC.
    now apply (Compose_loop_records (Compose_functions self)).
  - intros self v s ctx. split; [apply HctxM |].
    unfold MapCompose_call. rewrite HctxM.
    now apply (MapCompose_loop_records (MapCompose_functions self)).
  - intros dflt key. apply MergeDict_get_pair.
  - intros self pre f post v s v' s' r w Hfs ctx given Hpre Hgo Hf s''.
    unfold Compose_call. rewrite HctxC. fold ctx.
    rewrite Hfs, map_app, Compose_loop_app, Hpre.
    cbn [map Compose_loop]. rewrite Hgo. unfold bind.
    rewrite (wrap_loader_context_run _ _ _ _ _ _ Hf).
    now destruct r.
  - intros self pre f post v s values s1 before x after acc s2 r w
      Hfs ctx given Hpre Hit Hbefore Hf s3.
    unfold MapCompose_call. rewrite HctxM. fold ctx.
    rewrite Hfs, map_app, MapCompose_loop_app, Hpre.
    cbn [map MapCompose_loop]. rewrite Hit. unfold bind at 1.
    rewrite MapCompose_inner_app, Hbefore.
    cbn [MapCompose_inner]. unfold bind at 1.
    rewrite (wrap_loader_context_run _ _ _ _ _ _ Hf).
    destruct r as [y | e]; [| reflexivity].
    rewrite py_iter_arg_to_iter. reflexivity.
Qed.

(** C4: [MapCompose] first normalises its argument ([None] to the empty
    sequence, a scalar to a one-element sequence, a sequence to itself);
    then, stage by stage, the function is applied to every element of
    the working sequence, every result is normalised by the same rule,
    and the concatenation in element order is the next working sequence;
    the last one is returned as a list.  Functions that always return
    make every stage run.  [MapCompose(expand)([1, 2])] returns the
    normalised [expand(1)] followed by the normalised [expand(2)]. *)
Theorem MapCompose_flatten_map :
  (forall v, py_iter (arg_to_iter v) = Some (normalized v))
  /\ (forall (func : pyval -> Py W pyval) xs s rs s',
        applied func xs s rs s' ->
        MapCompose_inner func xs [] s = (Return (flat_map normalized rs), s'))
  /\ (forall (self : MapCompose W) v lc s ys s',
        MapCompose_functions self <> [] ->
        staged (map (fun f => wrap_loader_context f (MapCompose_context self lc))
                    (MapCompose_functions self))
               (normalized v) s ys s' ->
        MapCompose_call self v lc s = (Return (VList ys), s'))
  /\ (forall (self : MapCompose W) v lc s,
        (forall f, f ∈ MapCompose_functions self ->
           forall x c w, exists r w', func_call f x c w = (Return r, w')) ->
        exists ys s',
          staged (map (fun f => wrap_loader_context f (MapCompose_context self lc))
                      (MapCompose_functions self))
                 (normalized v) s ys s')
  /\ (forall expand kw lc s r1 w1 r2 w2,
        let self := MapCompose_init [expand] kw in
        let given :=
          if declares_loader_context expand
          then Some (MapCompose_context self lc) else None in
        func_call expand (VInt 1) given (world s) = (Return r1, w1) ->
        func_call expand (VInt 2) given w1 = (Return r2, w2) ->
        MapCompose_call self (VList [VInt 1; VInt 2]) lc s
        = (Return (VList (normalized r1 ++ normalized r2)),
           {| world := w2;
              calls := calls s ++ [Call (func_name expand) (VInt 1) given;
                                   Call (func_name expand) (VInt 2) given] |})).
Proof.
  split; [| split; [| split; [| split]]].
  - apply py_iter_arg_to_iter.
  - intros func xs s rs s' Happ.
    now rewrite (MapCompose_inner_applied _ _ _ _ _ Happ).
  - intros self v lc s ys s' Hne Hst. unfold MapCompose_call.
    destruct (MapCompose_functions self) as [| f fs]; [congruence |].
    simpl in *. rewrite py_iter_arg_to_iter.
    inversion Hst as [| func funcs xs s0 rs s1 ys0 s2 Happ Hrest]; subst.
    unfold bind. rewrite (MapCompose_inner_applied _ _ _ _ _ Happ). simpl.
    now apply MapCompose_loop_staged.
  - intros self v lc s Hret. apply staged_total.
    apply Forall_forall. intros func Hin x s0.
    apply list_elem_of_In, List.in_map_iff in Hin.
    destruct Hin as (f & <- & Hf). apply list_elem_of_In in Hf.
    destruct (Hret f Hf x
                (if declares_loader_context f
                 then Some (MapCompose_context self lc) else None) (world s0))
      as (r & w' & Hcall).
    eexists _, _. apply wrap_loader_context_run. exact Hcall.
  - intros expand kw lc s r1 w1 r2 w2 self given H1 H2.
    unfold MapCompose_call.
    change (arg_to_iter (VList [VInt 1; VInt 2])) with (VList [VInt 1; VInt 2]).
    cbn -[arg_to_iter wrap_loader_context]. unfold bind.
    rewrite (wrap_loader_context_run _ _ _ _ _ _ H1), py_iter_arg_to_iter.
    cbv beta iota.
    erewrite wrap_loader_context_run by (cbn [world]; exact H2).
    cbv beta iota. rewrite py_iter_arg_to_iter. cbn [world calls]. unfold ret.
    now rewrite <- app_assoc.
Qed.

End PipelineProperties.

(** ** The theorems at the sample functions *)

Lemma Compose_stop_on_none_short_circuit_witness :
  Compose_call (Compose_init [is_none; to_none; twice] ∅) (VInt 1) None start
  = (Return VNone,
     {| world := 2;
        calls := [Call "is_none" (VInt 1) None;
                  Call "to_none" (VBool false) None] |})
  /\ Compose_call (Compose_init [is_none; twice] ∅) VNone None start
     = (Return VNone, start)
  /\ Compose_loop (VBool true) [wrap_loader_context is_none (PlainDict ∅)]
       (VInt 1) start
     = (Return (VBool false),
        {| world := 1; calls := [Call "is_none" (VInt 1) None] |})
  /\ Compose_call (Compose_init [to_none; is_none] no_stop) (VInt 1) None start
     = (Return (VBool true),
        {| world := 2;
           calls := [Call "to_none" (VInt 1) None;
                     Call "is_none" VNone None] |})
  /\ Compose_call (Compose_init [is_none; twice] no_stop) VNone None start
     = (Return (VList [VBool true; VBool true]),
        {| world := 2;
           calls := [Call "is_none" VNone None;
                     Call "twice" (VBool true) None] |}).
Proof.
  destruct (@Compose_stop_on_none_short_circuit Z)
    as (_ & Hbreak & Hnone & Hstage & Hall & Hfg).
  split; [| split; [| split; [| split]]].
  - apply (Hbreak (Compose_init [is_none; to_none; twice] ∅)
             [is_none; to_none] [twice] (VInt 1) None start); reflexivity.
  - apply Hnone. reflexivity.
  - rewrite Hstage by reflexivity. reflexivity.
  - rewrite Hall by reflexivity. reflexivity.
  - apply (Hfg is_none twice no_stop None start (VBool true) 1
             (Return (VList [VBool true; VBool true])) 2); reflexivity.
Defined.

Lemma MapCompose_flatten_map_witness :
  MapCompose_call (MapCompose_init [twice; with_unit] defaults) (VInt 2)
    (Some runtime) start
  = (Return (VList [VInt 2; VStr "cm"; VInt 2; VStr "cm"]),
     {| world := 3;
        calls := [Call "twice" (VInt 2) None;
                  Call "with_unit" (VInt 2) (Some (MergeDict [runtime; defaults]));
                  Call "with_unit" (VInt 2) (Some (MergeDict [runtime; defaults]))] |})
  /\ MapCompose_call (MapCompose_init [twice] ∅) (VList [VInt 1; VInt 2]) None start
     = (Return (VList [VInt 1; VInt 1; VInt 2; VInt 2]),
        {| world := 2;
           calls := [Call "twice" (VInt 1) None; Call "twice" (VInt 2) None] |})
  /\ (exists ys s',
        staged [wrap_loader_context twice (PlainDict ∅)] [VStr "a"] start ys s')
  /\ MapCompose_inner (wrap_loader_context to_none (PlainDict ∅))
       [VInt 1; VInt 2] [] start
     = (Return [],
        {| world := 2;
           calls := [Call "to_none" (VInt 1) None; Call "to_none" (VInt 2) None] |}).
Proof.
  destruct (@MapCompose_flatten_map Z)
    as (_ & Hinner & Hstaged & Htotal & Hexpand).
  split; [| split; [| split]].
  - apply Hstaged; [discriminate |]. cbn.
    eapply staged_cons.
    + eapply applied_cons; [reflexivity | apply applied_nil].
    + eapply staged_cons.
      * eapply applied_cons; [reflexivity |].
        eapply applied_cons; [reflexivity | apply applied_nil].
      * apply staged_nil.
  - apply (Hexpand twice ∅ None start (VList [VInt 1; VInt 1]) 1
             (VList [VInt 2; VInt 2]) 2); reflexivity.
  - apply (Htotal (MapCompose_init [twice] ∅) (VStr "a") None start).
    intros f Hf x c w. apply list_elem_of_singleton in Hf as ->.
    eexists _, _. reflexivity.
  - apply (Hinner _ [VInt 1; VInt 2] start [VNone; VNone]).
    eapply applied_cons; [reflexivity |].
    eapply applied_cons; [reflexivity | apply applied_nil].
Defined.

Lemma runtime_context_overrides_defaults_witness :
  Compose_context (Compose_init [with_unit; twice] defaults) (Some runtime)
  = MergeDict [runtime; defaults]
  /\ MapCompose_context (MapCompose_init [with_unit; twice] defaults) (Some runtime)
     = MergeDict [runtime; defaults]
  /\ context_get (MergeDict [runtime; defaults]) "unit" = Some (VStr "cm")
  /\ context_get (MergeDict [runtime; defaults]) "lang" = Some (VStr "en")
  /\ Compose_call (Compose_init [with_unit] defaults) (VInt 3) (Some runtime) start
     = (Return (VTuple [VInt 3; VStr "cm"]),
        {| world := 1;
           calls := [Call "with_unit" (VInt 3)
                       (Some (MergeDict [runtime; defaults]))] |})
  /\ Compose_call (Compose_init [with_unit; twice] defaults) (VInt 2)
       (Some runtime) start
     = (Return (VList [VTuple [VInt 2; VStr "cm"]; VTuple [VInt 2; VStr "cm"]]),
        {| world := 2;
           calls := [Call "with_unit" (VInt 2)
                       (Some (MergeDict [runtime; defaults]));
                     Call "twice" (VTuple [VInt 2; VStr "cm"]) None] |})
  /\ MapCompose_call (MapCompose_init [twice; with_unit] defaults) (VInt 2)
       (Some runtime) start
     = (Return (VList [VInt 2; VStr "cm"; VInt 2; VStr "cm"]),
        {| world := 3;
           calls := [Call "twice" (VInt 2) None;
                     Call "with_unit" (VInt 2)
                       (Some (MergeDict [runtime; defaults]));
                     Call "with_unit" (VInt 2)
                       (Some (MergeDict [runtime; defaults]))] |}).
Proof.
  assert (Hd : runtime <> ∅) by apply map_non_empty_singleton.
  destruct (@runtime_context_overrides_defaults Z runtime Hd)
    as (HC & HM & Hget & HCcall & HMcall).
  split; [| split; [| split; [| split; [| split; [| split]]]]].
  - apply (HC (Compose_init [with_unit; twice] defaults) (VInt 2) start).
  - apply (HM (MapCompose_init [with_unit; twice] defaults) (VInt 2) start).
  - rewrite Hget. reflexivity.
  - rewrite Hget. reflexivity.
  - apply (HCcall (Compose_init [with_unit] defaults) [] with_unit []
             (VInt 3) start (VInt 3) start
             (Return (VTuple [VInt 3; VStr "cm"])) 1); reflexivity.
  - apply (HCcall (Compose_init [with_unit; twice] defaults) [with_unit] twice []
             (VInt 2) start (VTuple [VInt 2; VStr "cm"])
             {| world := 1;
                calls := [Call "with_unit" (VInt 2)
                            (Some (MergeDict [runtime; defaults]))] |}
             (Return (VList [VTuple [VInt 2; VStr "cm"]; VTuple [VInt 2; VStr "cm"]]))
             2); reflexivity.
  - apply (HMcall (MapCompose_init [twice; with_unit] defaults) [twice] with_unit []
             (VInt 2) start (VList [VInt 2; VInt 2])
             {| world := 1; calls := [Call "twice" (VInt 2) None] |}
             [VInt 2] (VInt 2) [] [VInt 2; VStr "cm"]
             {| world := 2;
                calls := [Call "twice" (VInt 2) None;
                          Call "with_unit" (VInt 2)
                            (Some (MergeDict [runtime; defaults]))] |}
             (Return (VTuple [VInt 2; VStr "cm"])) 3); reflexivity.
Defined.

Lemma stop_on_none_stays_in_context_witness :
  Compose_stop_on_none (Compose_init [with_unit] no_stop) = VBool false
  /\ Compose_default_loader_context (Compose_init [with_unit] no_stop)
     !! "stop_on_none" = Some (VBool false)
  /\ is_Some (context_get
                (Compose_context (Compose_init [with_unit] no_stop) (Some runtime))
                "stop_on_none").
Proof.
  destruct (@stop_on_none_stays_in_context Z [with_unit] no_stop (VBool false)
              eq_refl) as (Hstop & Hkey & Hctx).
  split; [exact Hstop |]. split; [exact Hkey |].
  apply (Hctx (Some runtime)).
Defined.

Lemma exceptions_propagate_witness :
  Compose_call (Compose_init [twice; with_unit; to_none] ∅) (VInt 1) None start
  = (Raise (Exception "KeyError" [VStr "unit"]),
     {| world := 2;
        calls := [Call "twice" (VInt 1) None;
                  Call "with_unit" (VList [VInt 1; VInt 1]) (Some (PlainDict ∅))] |})
  /\ MapCompose_call (MapCompose_init [twice; reject_two; to_none] ∅)
       (VTuple [VInt 1; VInt 2]) None start
     = (Raise (Exception "ValueError" [VInt 2]),
        {| world := 5;
           calls := [Call "twice" (VInt 1) None; Call "twice" (VInt 2) None;
                     Call "reject_two" (VInt 1) None;
                     Call "reject_two" (VInt 1) None;
                     Call "reject_two" (VInt 2) None] |}).
Proof.
  destruct (@exceptions_propagate Z) as (HC & HM). split.
  - apply (HC (Compose_init [twice; with_unit; to_none] ∅)
             [twice] with_unit [to_none] (VInt 1) None start
             (VList [VInt 1; VInt 1])
             {| world := 1; calls := [Call "twice" (VInt 1) None] |});
      reflexivity.
  - apply (HM (MapCompose_init [twice; reject_two; to_none] ∅)
             [twice] reject_two [to_none] (VTuple [VInt 1; VInt 2]) None start
             (VList [VInt 1; VInt 1; VInt 2; VInt 2])
             {| world := 2;
                calls := [Call "twice" (VInt 1) None; Call "twice" (VInt 2) None] |}
             [VInt 1; VInt 1] (VInt 2) [VInt 2] [VInt 1; VInt 1]
             {| world := 4;
                calls := [Call "twice" (VInt 1) None; Call "twice" (VInt 2) None;
                          Call "reject_two" (VInt 1) None;
                          Call "reject_two" (VInt 1) None] |});
      reflexivity.
Defined.

Lemma empty_pipelines_witness :
  arg_to_iter (VStr "a") = VList [VStr "a"]
  /\ arg_to_iter (VTuple [VInt 1]) = VTuple [VInt 1]
  /\ arg_to_iter (VInt 0) <> VInt 0.
Proof.
  destruct (@empty_pipelines Z) as (_ & _ & _ & Hscalar & Hseq & Hnot).
  split; [| split].
  - apply Hscalar; reflexivity.
  - apply Hseq. reflexivity.
  - apply Hnot. reflexivity.
Defined.

Lemma default_context_without_runtime_context_witness :
  Compose_context (Compose_init [with_unit] defaults) (Some ∅) = PlainDict defaults
  /\ MapCompose_context (MapCompose_init [with_unit] defaults) None
     = PlainDict defaults
  /\ exists d,
       Some runtime = Some d /\ d <> ∅
       /\ [runtime; defaults]
          = [d; Compose_default_loader_context (Compose_init [with_unit] defaults)].
Proof.
  destruct (@default_context_without_runtime_context Z) as (Hdef & Hmerge & _).
  split; [| split].
  - destruct (Hdef (Some ∅) (or_intror eq_refl)) as (HC & _).
    apply (HC (Compose_init [with_unit] defaults)).
  - destruct (Hdef None (or_introl eq_refl)) as (_ & HM & _).
    apply (HM (MapCompose_init [with_unit] defaults)).
  - apply (Hmerge (Compose_init [with_unit] defaults) (Some runtime)
             [runtime; defaults]).
    reflexivity.
Defined.

(** * Further properties of the processors *)

(** ** [Join] *)

Lemma string_append_length (a b : string) :
  String.length (a ++ b)%string = (String.length a + String.length b)%nat.
Proof.
  induction a as [| c a IH]; [reflexivity |].
  change (S (String.length (a ++ b)%string)
          = S (String.length a + String.length b))%nat.
  now rewrite IH.
Qed.

Lemma string_append_assoc (a b c : string) :
  ((a ++ b) ++ c)%string = (a ++ (b ++ c))%string.
Proof.
  induction a as [| x a IH]; [reflexivity |].
  change (String x ((a ++ b) ++ c) = String x (a ++ (b ++ c)))%string.
  now rewrite IH.
Qed.

Lemma strings_of_map_VStr (strs : list string) :
  strings_of (map VStr strs) = Some strs.
Proof. induction strs as [| s strs IH]; simpl; [reflexivity | now rewrite IH]. Qed.

Lemma strings_of_Some (items : list pyval) (strs : list string) :
  strings_of items = Some strs -> items = map VStr strs.
Proof.
  revert strs. induction items as [| v items IH]; intros strs; simpl.
  - now intros [= <-].
  - destruct v; try discriminate.
    destruct (strings_of items) as [l |]; [| discriminate].
    intros [= <-]. simpl. now rewrite (IH l eq_refl).
Qed.

Lemma strings_of_is_str (items : list pyval) :
  Forall (fun v => is_str v = true) items <-> exists strs, strings_of items = Some strs.
Proof.
  split.
  - induction 1 as [| v items Hv _ [strs IH]]; simpl; [eauto |].
    destruct v; try discriminate. rewrite IH. eauto.
  - intros [strs H]. apply strings_of_Some in H as ->.
    induction strs; constructor; auto.
Qed.

Lemma concat_app (sep : string) (l1 l2 : list string) :
  l1 <> [] -> l2 <> [] ->
  String.concat sep (l1 ++ l2)
  = (String.concat sep l1 ++ sep ++ String.concat sep l2)%string.
Proof.
  intros H1 H2. induction l1 as [| a l1 IH]; [congruence |].
  destruct l1 as [| b l1].
  - simpl. destruct l2; [congruence | reflexivity].
  - change (String.concat sep ((a :: b :: l1) ++ l2))
      with (a ++ sep ++ String.concat sep ((b :: l1) ++ l2))%string.
    rewrite IH by discriminate.
    change (String.concat sep (a :: b :: l1))
      with (a ++ sep ++ String.concat sep (b :: l1))%string.
    now rewrite !string_append_assoc.
Qed.

Lemma Join_call_not_strings (sep : string) values items :
  py_iter values = Some items ->
  ~ Forall (fun v => is_str v = true) items ->
  exists e, Join_call (Join_init (Passed (VStr sep))) values = Raise e
            /\ exn_class e = "TypeError".
Proof.
  intros Hit Hnot. unfold Join_call, str_join. simpl. rewrite Hit.
  destruct (strings_of items) as [strs |] eqn:Hs.
  - exfalso. apply Hnot. apply strings_of_is_str. eauto.
  - eexists. split; reflexivity.
Qed.

(** X1: with a string as separator, [Join] returns exactly when every
    item of the sequence is a string, and then returns the items with
    the separator between them; when some item is not a string it raises
    a [TypeError]. *)
Theorem Join_returns_iff_strings :
  forall (sep : string) values items,
    py_iter values = Some items ->
    let self := Join_init (Passed (VStr sep)) in
    (Forall (fun v => is_str v = true) items ->
     exists strs, items = map VStr strs
       /\ Join_call self values = Return (VStr (String.concat sep strs)))
    /\ (~ Forall (fun v => is_str v = true) items ->
        exists e, Join_call self values = Raise e /\ exn_class e = "TypeError").
Proof.
  intros sep values items Hit self. unfold Join_call, str_join. simpl.
  rewrite Hit. split.
  - intros Hall. apply strings_of_is_str in Hall as [strs Hs].
    exists strs. rewrite Hs. split; [now apply strings_of_Some | reflexivity].
  - intros Hnot. destruct (strings_of items) as [strs |] eqn:Hs.
    + exfalso. apply Hnot. apply strings_of_is_str. eauto.
    + eexists. split; reflexivity.
Qed.

Lemma Join_returns_iff_strings_witness :
  (exists strs, [VStr "a"; VStr "b"] = map VStr strs
     /\ Join_call (Join_init (Passed (VStr ", "))) (VTuple [VStr "a"; VStr "b"])
        = Return (VStr (String.concat ", " strs)))
  /\ (exists e, Join_call (Join_init (Passed (VStr ", "))) (VList [VStr "a"; VInt 1])
                = Raise e /\ exn_class e = "TypeError").
Proof.
  split.
  - apply (proj1 (Join_returns_iff_strings ", " (VTuple [VStr "a"; VStr "b"])
                    [VStr "a"; VStr "b"] eq_refl)).
    repeat constructor.
  - apply (proj2 (Join_returns_iff_strings ", " (VList [VStr "a"; VInt 1])
                    [VStr "a"; VInt 1] eq_refl)).
    intros H. inversion H as [| ? ? _ H']. inversion H' as [| ? ? Hbad _].
    discriminate Hbad.
Defined.

(** X2: the length of the joined string is the sum of the lengths of
    the strings plus one separator for each string after the first; in
    particular the empty sequence gives the empty string and a single
    string gives itself, whatever the separator. *)
Theorem Join_length :
  forall (sep : string) (strs : list string),
    let self := Join_init (Passed (VStr sep)) in
    (exists r, Join_call self (VList (map VStr strs)) = Return (VStr r)
       /\ String.length r
          = (total_length strs + String.length sep * (length strs - 1))%nat)
    /\ Join_call self (VList []) = Return (VStr "")
    /\ (forall s, Join_call self (VList [VStr s]) = Return (VStr s)).
Proof.
  intros sep strs self. split; [| split; reflexivity].
  exists (String.concat sep strs). split.
  - unfold Join_call, str_join. simpl. now rewrite strings_of_map_VStr.
  - induction strs as [| a strs IH]; [simpl; lia |].
    destruct strs as [| b strs].
    + simpl. lia.
    + change (String.concat sep (a :: b :: strs))
        with (a ++ sep ++ String.concat sep (b :: strs))%string.
      rewrite !string_append_length, IH.
      change (total_length (a :: b :: strs))
        with (String.length a + total_length (b :: strs))%nat.
      simpl length. nia.
Qed.

(** X3: joining a concatenation of two non-empty sequences of strings is
    joining each and putting one separator between the results. *)
Theorem Join_concatenation :
  forall (sep : string) xs ys a b,
    let self := Join_init (Passed (VStr sep)) in
    xs <> [] -> ys <> [] ->
    Join_call self (VList xs) = Return (VStr a) ->
    Join_call self (VList ys) = Return (VStr b) ->
    Join_call self (VList (xs ++ ys)) = Return (VStr (a ++ sep ++ b)).
Proof.
  intros sep xs ys a b self Hx Hy. unfold Join_call, str_join. simpl.
  destruct (strings_of xs) as [l1 |] eqn:H1; [| discriminate].
  destruct (strings_of ys) as [l2 |] eqn:H2; [| discriminate].
  intros [= <-] [= <-].
  apply strings_of_Some in H1 as ->. apply strings_of_Some in H2 as ->.
  rewrite <- map_app, strings_of_map_VStr. do 2 f_equal.
  apply concat_app; intros ->; auto.
Qed.

Lemma Join_concatenation_witness :
  Join_call (Join_init (Passed (VStr "-")))
    (VList ([VStr "a"; VStr "b"] ++ [VStr "c"]))
  = Return (VStr ("a-b" ++ "-" ++ "c")).
Proof.
  apply (Join_concatenation "-" [VStr "a"; VStr "b"] [VStr "c"] "a-b" "c");
    (discriminate || reflexivity).
Defined.

(** X4: joining the characters of a string with the empty separator
    gives the string back: [''.join(s) == s]. *)
Theorem Join_empty_separator_string :
  forall s : string,
    Join_call (Join_init (Passed (VStr ""))) (VStr s) = Return (VStr s).
Proof.
  intros s. unfold Join_call, str_join. simpl.
  rewrite <- (map_map (fun c => String c EmptyString) VStr), strings_of_map_VStr.
  do 2 f_equal. induction s as [| c s IH]; [reflexivity |].
  simpl. destruct s as [| d s]; [reflexivity |].
  simpl in IH |- *. now rewrite IH.
Qed.

(** ** [Filter] and [TakeFirst] *)

Lemma filter_sublist {A} (f : A -> bool) (l : list A) :
  sublist (List.filter f l) l.
Proof.
  induction l as [| a l IH]; simpl; [constructor |].
  destruct (f a); now constructor.
Qed.

Lemma filter_elem_of {A} (f : A -> bool) (l : list A) (x : A) :
  x ∈ List.filter f l <-> x ∈ l /\ f x = true.
Proof.
  rewrite !list_elem_of_In, List.filter_In. reflexivity.
Qed.

Lemma Filter_call_accepted (function : argument (option callable))
    (values : pyval) (items : list pyval) :
  py_iter values = Some items ->
  Filter_call (Filter_init function) values
  = Return (VTuple (List.filter (accepted function) items)).
Proof.
  intros Hit. unfold Filter_call. rewrite Hit. do 2 f_equal.
  destruct function as [| [p |]]; try reflexivity.
  apply List.filter_ext, default_function_accepted.
Qed.

(** X5: on a sequence [Filter] returns the tuple of exactly the items
    its argument accepts, each as often as it occurs and in the order of
    the sequence: the default accepts what is neither [None] nor the
    empty string, [None] what is true, a predicate what it finds true.
    So the result is a subsequence of the items. *)
Theorem Filter_keeps_exactly :
  forall (function : argument (option callable)) values items,
    py_iter values = Some items ->
    exists kept,
      Filter_call (Filter_init function) values = Return (VTuple kept)
      /\ kept = List.filter (accepted function) items
      /\ sublist kept items
      /\ forall v, v ∈ kept <-> v ∈ items /\ accepted function v = true.
Proof.
  intros function values items Hit.
  exists (List.filter (accepted function) items). split; [| split; [| split]].
  - now apply Filter_call_accepted.
  - reflexivity.
  - apply filter_sublist.
  - intros v. apply filter_elem_of.
Qed.

Lemma Filter_keeps_exactly_witness :
  (exists kept,
     Filter_call (Filter_init (Passed (Some (fun v => VBool (py_eq v (VInt 1))))))
       (VList [VInt 1; VInt 0; VInt 1; VNone])
     = Return (VTuple kept)
     /\ kept = [VInt 1; VInt 1])
  /\ (exists kept,
        Filter_call (Filter_init Omitted) (VList [VNone; VStr "a"; VStr ""; VInt 0])
        = Return (VTuple kept)
        /\ kept = [VStr "a"; VInt 0])
  /\ (exists kept,
        Filter_call (Filter_init (Passed None)) (VTuple [VStr "a"; VStr ""; VInt 0])
        = Return (VTuple kept)
        /\ kept = [VStr "a"]).
Proof.
  split; [| split].
  - destruct (Filter_keeps_exactly
                (Passed (Some (fun v => VBool (py_eq v (VInt 1)))))
                (VList [VInt 1; VInt 0; VInt 1; VNone])
                [VInt 1; VInt 0; VInt 1; VNone] eq_refl)
      as (kept & Hcall & Hkept & _).
    exists kept. split; [exact Hcall | rewrite Hkept; reflexivity].
  - destruct (Filter_keeps_exactly Omitted
                (VList [VNone; VStr "a"; VStr ""; VInt 0])
                [VNone; VStr "a"; VStr ""; VInt 0] eq_refl)
      as (kept & Hcall & Hkept & _).
    exists kept. split; [exact Hcall | rewrite Hkept; reflexivity].
  - destruct (Filter_keeps_exactly (Passed None)
                (VTuple [VStr "a"; VStr ""; VInt 0])
                [VStr "a"; VStr ""; VInt 0] eq_refl)
      as (kept & Hcall & Hkept & _).
    exists kept. split; [exact Hcall | rewrite Hkept; reflexivity].
Defined.

Lemma filter_comm {A} (f g : A -> bool) (l : list A) :
  List.filter f (List.filter g l) = List.filter g (List.filter f l).
Proof.
  induction l as [| a l IH]; simpl; [reflexivity |].
  destruct (g a) eqn:Hg, (f a) eqn:Hf; simpl; rewrite ?Hg, ?Hf, IH; reflexivity.
Qed.

(** X6: two [Filter]s can be applied in either order, with the same
    result; and [Filter] of a concatenation of two lists is the
    concatenation of the two results. *)
Theorem Filter_commutes_and_distributes :
  (forall (p q : argument (option callable)) values,
     and_then (Filter_call (Filter_init q) values) (Filter_call (Filter_init p))
     = and_then (Filter_call (Filter_init p) values) (Filter_call (Filter_init q)))
  /\ (forall (p : argument (option callable)) xs ys,
        exists a b,
          Filter_call (Filter_init p) (VList xs) = Return (VTuple a)
          /\ Filter_call (Filter_init p) (VList ys) = Return (VTuple b)
          /\ Filter_call (Filter_init p) (VList (xs ++ ys)) = Return (VTuple (a ++ b))).
Proof.
  split.
  - intros p q values. unfold Filter_call.
    destruct (py_iter values) as [items |]; simpl; [| reflexivity].
    unfold py_filter. now rewrite filter_comm.
  - intros p xs ys. eexists _, _. repeat split.
    unfold Filter_call. simpl. unfold py_filter. now rewrite List.filter_app.
Qed.

Lemma present_strings_filter (items : list pyval) :
  Forall (fun v => v = VNone \/ is_str v = true) items ->
  py_filter (Some default_function) items = map VStr (present_strings items).
Proof.
  induction 1 as [| v items Hv _ IH]; [reflexivity |].
  change (py_filter (Some default_function) (v :: items))
    with (if truthy (default_function v)
          then v :: py_filter (Some default_function) items
          else py_filter (Some default_function) items).
  rewrite IH. destruct Hv as [-> | Hv]; [reflexivity |].
  destruct v as [| | | | s | |]; try discriminate. now destruct s.
Qed.

(** X7: [Filter()] makes a sequence of strings and [None]s fit for
    [Join]: the composition returns the strings that are not empty,
    joined; without [Filter()] a [None] among the items makes [Join]
    raise a [TypeError]. *)
Theorem Filter_then_Join :
  forall (sep : string) items,
    Forall (fun v => v = VNone \/ is_str v = true) items ->
    and_then (Filter_call (Filter_init Omitted) (VList items))
             (Join_call (Join_init (Passed (VStr sep))))
    = Return (VStr (String.concat sep (present_strings items)))
    /\ (VNone ∈ items ->
        exists e, Join_call (Join_init (Passed (VStr sep))) (VList items) = Raise e
                  /\ exn_class e = "TypeError").
Proof.
  intros sep items Hall. split.
  - unfold Filter_call. simpl. rewrite (present_strings_filter _ Hall).
    unfold Join_call, str_join. simpl. now rewrite strings_of_map_VStr.
  - intros Hin.
    apply (Join_call_not_strings sep (VList items) items eq_refl).
    intros Hstr. rewrite Forall_forall in Hstr.
    specialize (Hstr VNone Hin). discriminate.
Qed.

Lemma Filter_then_Join_witness :
  and_then (Filter_call (Filter_init Omitted) (VList [VStr "a"; VNone; VStr ""; VStr "b"]))
           (Join_call (Join_init (Passed (VStr " "))))
  = Return (VStr "a b")
  /\ exists e, Join_call (Join_init (Passed (VStr " ")))
                 (VList [VStr "a"; VNone; VStr ""; VStr "b"]) = Raise e
               /\ exn_class e = "TypeError".
Proof.
  assert (Hall : Forall (fun v => v = VNone \/ is_str v = true)
                   [VStr "a"; VNone; VStr ""; VStr "b"]).
  { repeat (constructor; [first [now left | now right] |]). constructor. }
  destruct (Filter_then_Join " " _ Hall) as [Hjoin Hraise]. split.
  - exact Hjoin.
  - apply Hraise. right. left.
Defined.

Lemma TakeFirst_scan_head (f : callable) (items : list pyval) :
  TakeFirst_scan f items
  = default VNone (head (List.filter (fun v => truthy (f v)) items)).
Proof.
  induction items as [| v items IH]; simpl; [reflexivity |].
  destruct (truthy (f v)); [reflexivity | exact IH].
Qed.

(** X8: for the same [function] argument (omitted, [None] or a
    predicate), [TakeFirst] returns the first item of what [Filter]
    returns, and [None] when [Filter] returns the empty tuple. *)
Theorem TakeFirst_is_head_of_Filter :
  forall (function : argument (option callable)) values items,
    py_iter values = Some items ->
    exists kept,
      Filter_call (Filter_init function) values = Return (VTuple kept)
      /\ TakeFirst_call (TakeFirst_init function) values
         = Return (default VNone (head kept)).
Proof.
  intros function values items Hit. eexists. split.
  - unfold Filter_call. rewrite Hit. reflexivity.
  - unfold TakeFirst_call. rewrite Hit, TakeFirst_scan_head.
    destruct function as [| [f |]]; reflexivity.
Qed.

Lemma TakeFirst_is_head_of_Filter_witness :
  exists kept,
    Filter_call (Filter_init (Passed None)) (VTuple [VInt 0; VStr "A"; VInt 3])
    = Return (VTuple kept)
    /\ TakeFirst_call (TakeFirst_init (Passed None)) (VTuple [VInt 0; VStr "A"; VInt 3])
       = Return (default VNone (head kept)).
Proof.
  apply (TakeFirst_is_head_of_Filter (Passed None)
           (VTuple [VInt 0; VStr "A"; VInt 3]) [VInt 0; VStr "A"; VInt 3]).
  reflexivity.
Defined.

Lemma TakeFirst_scan_default (items : list pyval) :
  (TakeFirst_scan default_function items = VNone
   /\ Forall (fun v => v = VNone \/ v = VStr "") items)
  \/ (TakeFirst_scan default_function items <> VNone
      /\ TakeFirst_scan default_function items <> VStr ""
      /\ ~ Forall (fun v => v = VNone \/ v = VStr "") items).
Proof.
  induction items as [| v items IH]; cbn [TakeFirst_scan].
  - left. split; constructor.
  - destruct (truthy (default_function v)) eqn:Hv.
    + apply default_function_spec in Hv as [Hn He]. right.
      repeat split; try assumption.
      intros Hall. inversion Hall as [| ? ? Hd _]. destruct Hd; congruence.
    + assert (Hv' : v = VNone \/ v = VStr "").
      { destruct v as [| | | | s | |]; try discriminate; auto.
        destruct s; [auto | discriminate]. }
      destruct IH as [[Hr Hall] | (Hn & He & Hall)].
      * left. split; [exact Hr | now constructor].
      * right. repeat split; try assumption.
        intros Hall'. apply Hall. now inversion Hall'.
Qed.

(** X9: [TakeFirst()] with the default predicate returns [None] exactly
    when every item is [None] or the empty string, and never returns the
    empty string. *)
Theorem TakeFirst_default_None_iff :
  forall values items,
    py_iter values = Some items ->
    (TakeFirst_call (TakeFirst_init Omitted) values = Return VNone
     <-> Forall (fun v => v = VNone \/ v = VStr "") items)
    /\ TakeFirst_call (TakeFirst_init Omitted) values <> Return (VStr "").
Proof.
  intros values items Hit. unfold TakeFirst_call. rewrite Hit.
  cbn [TakeFirst_function TakeFirst_init].
  destruct (TakeFirst_scan_default items) as [[Hr Hall] | (Hn & He & Hall)].
  - rewrite Hr. split; [tauto | discriminate].
  - split; [split; [intros [= H]; contradiction | contradiction] |].
    intros [= H]. contradiction.
Qed.

Lemma TakeFirst_default_None_iff_witness :
  (TakeFirst_call (TakeFirst_init Omitted) (VList [VNone; VStr ""]) = Return VNone
   <-> Forall (fun v => v = VNone \/ v = VStr "") [VNone; VStr ""])
  /\ TakeFirst_call (TakeFirst_init Omitted) (VList [VNone; VStr ""])
     <> Return (VStr "").
Proof.
  apply (TakeFirst_default_None_iff (VList [VNone; VStr ""])). reflexivity.
Defined.

(** ** [Slice] *)

Lemma py_iter_length_str (s : string) (items : list pyval) :
  py_iter (VStr s) = Some items ->
  length items = length (list_ascii_of_string s).
Proof. intros [= <-]. apply List.length_map. Qed.

Lemma py_slice_whole {A} (b e : option Z) (l : list A) :
  b = None \/ b = Some 0 ->
  e = None \/ (exists j, e = Some j /\ Z.of_nat (length l) <= j) ->
  py_slice b e l = l.
Proof.
  intros Hb He. unfold py_slice.
  assert (Hstart : slice_bound (Z.of_nat (length l)) b 0 = 0).
  { destruct Hb as [-> | ->]; [reflexivity |]. simpl. lia. }
  assert (Hstop : slice_bound (Z.of_nat (length l)) e (Z.of_nat (length l))
                  = Z.of_nat (length l)).
  { destruct He as [-> | (j & -> & Hj)]; [reflexivity |]. unfold slice_bound.
    destruct (Z.ltb_spec j 0); lia. }
  rewrite Hstart, Hstop, Z.sub_0_r, Nat2Z.id. simpl. apply List.firstn_all.
Qed.

(** X10: [Slice] with [begin] [None] or [0] and [end] [None] or at
    least the length returns the whole sequence, as a list, a tuple or a
    string like its argument; in particular [Slice()] changes nothing. *)
Theorem Slice_whole :
  forall b e s items,
    py_iter s = Some items ->
    b = None \/ b = Some 0 ->
    e = None \/ (exists j, e = Some j /\ Z.of_nat (length items) <= j) ->
    Slice_call (Slice_init b e) s = Return s.
Proof.
  intros b e s items Hit Hb He.
  destruct s as [| x | z | f | str | l | l]; try discriminate; simpl.
  - rewrite (py_iter_length_str _ _ Hit) in He.
    rewrite py_slice_whole by assumption.
    now rewrite string_of_list_ascii_of_string.
  - injection Hit as <-. now rewrite py_slice_whole.
  - injection Hit as <-. now rewrite py_slice_whole.
Qed.

Lemma Slice_whole_witness :
  Slice_call (Slice_init (Some 0) (Some 5)) (VStr "abc") = Return (VStr "abc").
Proof.
  apply (Slice_whole (Some 0) (Some 5) (VStr "abc") [VStr "a"; VStr "b"; VStr "c"]).
  - reflexivity.
  - now right.
  - right. exists 5. split; [reflexivity | simpl; lia].
Defined.

Lemma py_slice_split {A} (n : Z) (l : list A) :
  py_slice None (Some n) l ++ py_slice (Some n) None l = l.
Proof.
  unfold py_slice. cbn [slice_bound].
  set (len := Z.of_nat (length l)).
  set (c := if n <? 0 then Z.max (n + len) 0 else Z.min n len).
  assert (Hc : 0 <= c <= len).
  { subst c len. destruct (Z.ltb_spec n 0); lia. }
  rewrite Z.sub_0_r. simpl skipn.
  rewrite (List.firstn_all2 (n := Z.to_nat (len - c))).
  - apply List.firstn_skipn.
  - rewrite List.length_skipn. subst len. lia.
Qed.

Lemma string_of_list_ascii_app (l1 l2 : list ascii) :
  string_of_list_ascii (l1 ++ l2)
  = (string_of_list_ascii l1 ++ string_of_list_ascii l2)%string.
Proof.
  induction l1 as [| c l1 IH]; [reflexivity |].
  change (String c (string_of_list_ascii (l1 ++ l2))
          = String c (string_of_list_ascii l1 ++ string_of_list_ascii l2)%string).
  now rewrite IH.
Qed.

(** X11: for every integer [n], negative or beyond the length as well,
    the slices [values[:n]] and [values[n:]] put together give
    [values] back, for a list and for a string. *)
Theorem Slice_split_rejoin :
  forall n : Z,
    (forall items, exists a b,
       Slice_call (Slice_init None (Some n)) (VList items) = Return (VList a)
       /\ Slice_call (Slice_init (Some n) None) (VList items) = Return (VList b)
       /\ a ++ b = items)
    /\ (forall s, exists a b,
          Slice_call (Slice_init None (Some n)) (VStr s) = Return (VStr a)
          /\ Slice_call (Slice_init (Some n) None) (VStr s) = Return (VStr b)
          /\ (a ++ b)%string = s).
Proof.
  intros n. split.
  - intros items. eexists _, _. repeat split. apply py_slice_split.
  - intros s. eexists _, _. repeat split. simpl.
    rewrite <- string_of_list_ascii_app, py_slice_split.
    apply string_of_list_ascii_of_string.
Qed.

(** X12: a slice of a list is a run of neighbouring items of it, in
    their order: the list is some items, then the slice, then some
    items; so a slice is never longer than the list. *)
Theorem Slice_contiguous :
  forall b e items,
    exists pre r suf,
      Slice_call (Slice_init b e) (VList items) = Return (VList r)
      /\ items = pre ++ r ++ suf
      /\ Z.of_nat (length pre)
         = slice_bound (Z.of_nat (length items)) b 0.
Proof.
  intros b e items.
  pose proof (slice_bound_range (Z.of_nat (length items)) b 0
                ltac:(lia) ltac:(lia)) as Hstart.
  set (start := Z.to_nat (slice_bound (Z.of_nat (length items)) b 0)).
  set (n := Z.to_nat (slice_bound (Z.of_nat (length items)) e
                        (Z.of_nat (length items))
                      - slice_bound (Z.of_nat (length items)) b 0)).
  exists (firstn start items), (firstn n (skipn start items)),
         (skipn n (skipn start items)).
  split; [reflexivity |]. split.
  - now rewrite !List.firstn_skipn.
  - rewrite List.length_firstn. subst start. lia.
Qed.

(** X13: a negative index counts from the end: for [k > 0],
    [Slice(-k)] returns the last [k] items and [Slice(None, -k)] all but
    the last [k]; when [k] exceeds the length these are the whole list
    and the empty list. *)
Theorem Slice_negative_index :
  forall (k : nat) items,
    (0 < k)%nat ->
    Slice_call (Slice_init (Some (- Z.of_nat k)) None) (VList items)
    = Return (VList (skipn (length items - k) items))
    /\ Slice_call (Slice_init None (Some (- Z.of_nat k))) (VList items)
       = Return (VList (firstn (length items - k) items)).
Proof.
  intros k items Hk. simpl. unfold py_slice. cbn [slice_bound].
  destruct (Z.ltb_spec (- Z.of_nat k) 0) as [_ | Hbad]; [| lia].
  replace (Z.to_nat (Z.max (- Z.of_nat k + Z.of_nat (length items)) 0))
    with (length items - k)%nat by lia.
  split; do 2 f_equal.
  - apply List.firstn_all2. rewrite List.length_skipn. lia.
  - rewrite Z.sub_0_r. simpl skipn. f_equal. lia.
Qed.

Lemma Slice_negative_index_witness :
  Slice_call (Slice_init (Some (- Z.of_nat 2)) None) (VList (map VInt [2; 3; 5; 7]))
  = Return (VList (map VInt [5; 7]))
  /\ Slice_call (Slice_init None (Some (- Z.of_nat 2))) (VList (map VInt [2; 3; 5; 7]))
     = Return (VList (map VInt [2; 3])).
Proof.
  apply (Slice_negative_index 2 (map VInt [2; 3; 5; 7])). lia.
Defined.

(** ** More on [Compose] and [MapCompose] *)

Section PipelineCalls.

Context {W : Type}.

Implicit Types (f g : pyfunc W) (s : store W) (ctx : context) (v : pyval).
Implicit Types (kw : dict) (lc : option dict) (fs gs : list (pyfunc W)).

(** X14: a [Compose] of the functions [fs] followed by [gs] is the
    [Compose] of [fs] and then the [Compose] of [gs] on its result, with
    the same keyword arguments and runtime context. *)
Theorem Compose_of_concatenation :
  forall fs gs kw v lc s,
    Compose_call (Compose_init (fs ++ gs) kw) v lc s
    = (v' <- Compose_call (Compose_init fs kw) v lc ;;
       Compose_call (Compose_init gs kw) v' lc) s.
Proof.
  intros fs gs kw v lc s. unfold Compose_call, bind.
  cbn [Compose_functions Compose_stop_on_none Compose_init].
  rewrite map_app, Compose_loop_app. reflexivity.
Qed.

Lemma wrap_loader_context_call f ctx v s :
  exists r w,
    func_call f v (if declares_loader_context f then Some ctx else None) (world s)
    = (r, w)
    /\ wrap_loader_context f ctx v s
       = (r, {| world := w;
                calls := calls s ++
                  [Call (func_name f) v
                     (if declares_loader_context f then Some ctx else None)] |}).
Proof.
  destruct (func_call f v (if declares_loader_context f then Some ctx else None)
              (world s)) as [r w] eqn:Hcall.
  exists r, w. split; [reflexivity |]. now apply wrap_loader_context_run.
Qed.

Lemma Compose_loop_values ctx stop (l : list (pyfunc W)) v s :
  truthy stop = true ->
  records s
    (Compose_loop stop (map (fun f => wrap_loader_context f ctx) l) v s).2
    (fun ev => ev_value ev <> VNone).
Proof.
  intros Hstop. revert v s. induction l as [| f l IH]; intros v s; simpl.
  - apply records_refl.
  - rewrite Hstop, andb_true_r.
    destruct (is_None v) eqn:Hv; [apply records_refl |].
    unfold bind.
    destruct (wrap_loader_context_call f ctx v s) as (r & w & _ & ->).
    assert (Hf : records s
              {| world := w;
                 calls := calls s ++
                   [Call (func_name f) v
                      (if declares_loader_context f then Some ctx else None)] |}
              (fun ev => ev_value ev <> VNone)).
    { eexists. split; [reflexivity |]. constructor; [| constructor].
      simpl. intros ->. discriminate. }
    destruct r as [v' | e]; simpl; [| exact Hf].
    eapply records_trans; [exact Hf | apply IH].
Qed.

(** X15: when [stop_on_none] is true, no function of a [Compose] is
    ever called with [None]: every call made has a value other than
    [None]. *)
Theorem Compose_never_passes_None :
  forall (self : Compose W) v lc s,
    truthy (Compose_stop_on_none self) = true ->
    exists new,
      calls (Compose_call self v lc s).2 = calls s ++ new
      /\ Forall (fun ev => ev_value ev <> VNone) new.
Proof.
  intros self v lc s Hstop. unfold Compose_call.
  now apply Compose_loop_values.
Qed.

Lemma Compose_loop_names ctx stop (l : list (pyfunc W)) v s :
  exists new,
    calls (Compose_loop stop (map (fun f => wrap_loader_context f ctx) l) v s).2
    = calls s ++ new
    /\ map ev_func new `prefix_of` map func_name l
    /\ forall r,
         (Compose_loop stop (map (fun f => wrap_loader_context f ctx) l) v s).1
         = Return r ->
         is_None r = false \/ truthy stop = false ->
         map ev_func new = map func_name l.
Proof.
  revert v s. induction l as [| f l IH]; intros v s; simpl.
  - exists []. rewrite app_nil_r. repeat split. reflexivity.
  - destruct (is_None v && truthy stop) eqn:Hbreak.
    + exists []. simpl. rewrite app_nil_r. split; [reflexivity |]. split.
      * apply prefix_nil.
      * intros r [= <-] Hr. apply andb_true_iff in Hbreak as [Hv Hs].
        destruct Hr; congruence.
    + unfold bind.
      destruct (wrap_loader_context_call f ctx v s) as (r & w & _ & ->).
      destruct r as [v' | e]; simpl.
      * destruct (IH v' {| world := w;
                           calls := calls s ++
                             [Call (func_name f) v
                                (if declares_loader_context f then Some ctx
                                 else None)] |})
          as (new & Hnew & Hpre & Hall).
        exists (Call (func_name f) v
                  (if declares_loader_context f then Some ctx else None) :: new).
        split; [| split].
        -- rewrite Hnew. simpl. now rewrite <- app_assoc.
        -- simpl. now apply prefix_cons.
        -- intros r Hr Hcond. simpl. f_equal. now apply (Hall r).
      * eexists. split; [reflexivity |]. split.
        -- simpl. apply prefix_cons, prefix_nil.
        -- intros r [=].
Qed.

(** X16: [Compose] calls its functions in the order of the chain, each
    at most once, and stops at some point of the chain; when it returns
    a value other than [None], or returns with [stop_on_none] false,
    every function was called, exactly once. *)
Theorem Compose_calls_in_chain_order :
  forall (self : Compose W) v lc s,
    exists new,
      calls (Compose_call self v lc s).2 = calls s ++ new
      /\ map ev_func new `prefix_of` map func_name (Compose_functions self)
      /\ forall r,
           (Compose_call self v lc s).1 = Return r ->
           is_None r = false \/ truthy (Compose_stop_on_none self) = false ->
           map ev_func new = map func_name (Compose_functions self).
Proof.
  intros self v lc s. unfold Compose_call. apply Compose_loop_names.
Qed.

Lemma Compose_loop_raise ctx stop fs (l : list (pyfunc W)) v s e s' :
  (forall f, f ∈ l -> f ∈ fs) ->
  Compose_loop stop (map (fun f => wrap_loader_context f ctx) l) v s
  = (Raise e, s') ->
  exists f x w done,
    f ∈ fs
    /\ func_call f x (if declares_loader_context f then Some ctx else None) w
       = (Raise e, world s')
    /\ calls s'
       = done ++ [Call (func_name f) x
                    (if declares_loader_context f then Some ctx else None)].
Proof.
  revert v s. induction l as [| f l IH]; intros v s Hin; simpl.
  - discriminate.
  - destruct (is_None v && truthy stop); [discriminate |].
    unfold bind.
    destruct (wrap_loader_context_call f ctx v s) as (r & w & Hcall & ->).
    destruct r as [v' | e0].
    + intros Hrest. apply IH in Hrest; [exact Hrest |].
      intros h Hh. apply Hin. now right.
    + intros [= <- <-]. exists f, v, (world s), (calls s).
      split; [apply Hin; left | split; [exact Hcall | reflexivity]].
Qed.

Lemma MapCompose_inner_raise ctx f (values acc : list pyval) s e s' :
  MapCompose_inner (wrap_loader_context f ctx) values acc s = (Raise e, s') ->
  exists x w done,
    func_call f x (if declares_loader_context f then Some ctx else None) w
    = (Raise e, world s')
    /\ calls s'
       = done ++ [Call (func_name f) x
                    (if declares_loader_context f then Some ctx else None)].
Proof.
  revert acc s. induction values as [| x values IH]; intros acc s; simpl.
  - discriminate.
  - unfold bind.
    destruct (wrap_loader_context_call f ctx x s) as (r & w & Hcall & ->).
    destruct r as [r | e0].
    + rewrite py_iter_arg_to_iter. apply IH.
    + intros [= <- <-]. exists x, (world s), (calls s). now split.
Qed.

Lemma MapCompose_loop_raise ctx fs (l : list (pyfunc W)) (values : pyval) s e s' :
  (forall f, f ∈ l -> f ∈ fs) ->
  is_Some (py_iter values) ->
  MapCompose_loop (map (fun f => wrap_loader_context f ctx) l) values s
  = (Raise e, s') ->
  exists f x w done,
    f ∈ fs
    /\ func_call f x (if declares_loader_context f then Some ctx else None) w
       = (Raise e, world s')
    /\ calls s'
       = done ++ [Call (func_name f) x
                    (if declares_loader_context f then Some ctx else None)].
Proof.
  revert values s. induction l as [| f l IH]; intros values s Hin [vs Hvs]; simpl.
  - discriminate.
  - rewrite Hvs. unfold bind.
    destruct (MapCompose_inner (wrap_loader_context f ctx) vs [] s)
      as [[next | e0] s1] eqn:Hinner.
    + intros Hrest. apply IH in Hrest; [exact Hrest | | simpl; eauto].
      intros h Hh. apply Hin. now right.
    + intros [= <- <-]. apply MapCompose_inner_raise in Hinner
        as (x & w & done & Hcall & Hdone).
      exists f, x, w, done. split; [apply Hin; left | now split].
Qed.

(** X17: [Compose] and [MapCompose] raise nothing of their own: when a
    call raises, the exception is the one a function of the chain raised
    in the last call made, and the store is as that function left it. *)
Theorem exceptions_come_from_functions :
  (forall (self : Compose W) v lc s e s',
     Compose_call self v lc s = (Raise e, s') ->
     exists f x c w done,
       f ∈ Compose_functions self
       /\ func_call f x c w = (Raise e, world s')
       /\ calls s' = done ++ [Call (func_name f) x c])
  /\ (forall (self : MapCompose W) v lc s e s',
        MapCompose_call self v lc s = (Raise e, s') ->
        exists f x c w done,
          f ∈ MapCompose_functions self
          /\ func_call f x c w = (Raise e, world s')
          /\ calls s' = done ++ [Call (func_name f) x c]).
Proof.
  split.
  - intros self v lc s e s' Hcall. unfold Compose_call in Hcall.
    apply (Compose_loop_raise _ _ (Compose_functions self)) in Hcall
      as (f & x & w & done & Hf & Hraise & Hdone); [| auto].
    eexists f, x, _, w, done. eauto.
  - intros self v lc s e s' Hcall. unfold MapCompose_call in Hcall.
    apply (MapCompose_loop_raise _ (MapCompose_functions self)) in Hcall
      as (f & x & w & done & Hf & Hraise & Hdone);
      [| auto | rewrite py_iter_arg_to_iter; eauto].
    eexists f, x, _, w, done. eauto.
Qed.

Lemma MapCompose_loop_empty (funcs : list (pyval -> Py W pyval)) s :
  MapCompose_loop funcs (VList []) s = (Return (VList []), s).
Proof. induction funcs as [| func funcs IH]; simpl; [reflexivity | exact IH]. Qed.

(** X18: on [None], the empty list or the empty tuple, a [MapCompose]
    with at least one function returns the empty list and calls
    nothing. *)
Theorem MapCompose_of_nothing :
  forall (self : MapCompose W) v lc s,
    v = VNone \/ v = VList [] \/ v = VTuple [] ->
    MapCompose_functions self <> [] ->
    MapCompose_call self v lc s = (Return (VList []), s).
Proof.
  intros self v lc s Hv Hfs. unfold MapCompose_call.
  destruct (MapCompose_functions self) as [| f fs]; [congruence |].
  cbn [map MapCompose_loop]. rewrite py_iter_arg_to_iter.
  assert (Hn : normalized v = []) by (destruct Hv as [-> | [-> | ->]]; reflexivity).
  rewrite Hn. cbn [MapCompose_inner]. unfold bind, ret.
  apply MapCompose_loop_empty.
Qed.

End PipelineCalls.

Section PipelineStages.

Context {W : Type}.

Implicit Types (f g : pyfunc W) (s : store W) (ctx : context) (v : pyval).
Implicit Types (kw : dict) (lc : option dict) (fs gs : list (pyfunc W)).

Lemma arg_to_iter_sequence v : is_sequence (arg_to_iter v) = true.
Proof. now destruct v. Qed.

Lemma arg_to_iter_of_sequence v : is_sequence v = true -> arg_to_iter v = v.
Proof. now destruct v. Qed.

Lemma MapCompose_loop_sequence (funcs : list (pyval -> Py W pyval))
    (values : pyval) s r s' :
  is_sequence values = true ->
  MapCompose_loop funcs values s = (Return r, s') ->
  is_sequence r = true.
Proof.
  revert values s. induction funcs as [| func funcs IH]; intros values s Hseq; simpl.
  - now intros [= <- <-].
  - destruct (py_iter values) as [vs |]; [| discriminate].
    unfold bind. destruct (MapCompose_inner func vs [] s) as [[next | e] s1];
      [| discriminate].
    now apply IH.
Qed.

(** X19: a [MapCompose] of the functions [fs] followed by [gs] is the
    [MapCompose] of [fs] and then the [MapCompose] of [gs] on its result,
    with the same keyword arguments and runtime context. *)
Theorem MapCompose_of_concatenation :
  forall fs gs kw v lc s,
    MapCompose_call (MapCompose_init (fs ++ gs) kw) v lc s
    = (r <- MapCompose_call (MapCompose_init fs kw) v lc ;;
       MapCompose_call (MapCompose_init gs kw) r lc) s.
Proof.
  intros fs gs kw v lc s. unfold MapCompose_call, bind.
  cbn [MapCompose_functions MapCompose_init].
  rewrite map_app, MapCompose_loop_app.
  change (MapCompose_context (MapCompose_init (fs ++ gs) kw) lc)
    with (MapCompose_context (MapCompose_init fs kw) lc).
  change (MapCompose_context (MapCompose_init gs kw) lc)
    with (MapCompose_context (MapCompose_init fs kw) lc).
  destruct (MapCompose_loop
              (map (fun f => wrap_loader_context f
                                (MapCompose_context (MapCompose_init fs kw) lc)) fs)
              (arg_to_iter v) s) as [[r | e] s1] eqn:Hfs; [| reflexivity].
  apply MapCompose_loop_sequence in Hfs; [| apply arg_to_iter_sequence].
  now rewrite (arg_to_iter_of_sequence r Hfs).
Qed.

Lemma MapCompose_inner_calls ctx f (values acc : list pyval) s :
  exists done,
    done `prefix_of` values
    /\ calls (MapCompose_inner (wrap_loader_context f ctx) values acc s).2
       = calls s ++
         map (fun x => Call (func_name f) x
                         (if declares_loader_context f then Some ctx else None))
             done
    /\ forall r,
         (MapCompose_inner (wrap_loader_context f ctx) values acc s).1 = Return r ->
         done = values.
Proof.
  revert acc s. induction values as [| x values IH]; intros acc s; simpl.
  - exists []. split; [apply prefix_nil |]. simpl. rewrite app_nil_r. auto.
  - unfold bind.
    destruct (wrap_loader_context_call f ctx x s) as (r & w & _ & ->).
    destruct r as [r | e]; simpl.
    + rewrite py_iter_arg_to_iter.
      destruct (IH (acc ++ normalized r)
                  {| world := w;
                     calls := calls s ++
                       [Call (func_name f) x
                          (if declares_loader_context f then Some ctx else None)] |})
        as (done & Hpre & Hcalls & Hall).
      exists (x :: done). split; [now apply prefix_cons |]. split.
      * rewrite Hcalls. simpl. now rewrite <- app_assoc.
      * intros r' Hr'. f_equal. now apply (Hall r').
    + exists [x]. split; [apply prefix_cons, prefix_nil |].
      split; [reflexivity | intros r' [=]].
Qed.

(** X20: [MapCompose] with one function calls it on the items of the
    normalised argument, in their order, [None] items included, and on
    nothing else; when the call returns, it was called on every item
    exactly once. *)
Theorem MapCompose_calls_each_item :
  forall f kw v lc s,
    let self := MapCompose_init [f] kw in
    let given :=
      if declares_loader_context f then Some (MapCompose_context self lc)
      else None in
    exists done,
      done `prefix_of` normalized v
      /\ calls (MapCompose_call self v lc s).2
         = calls s ++ map (fun x => Call (func_name f) x given) done
      /\ forall r,
           (MapCompose_call self v lc s).1 = Return r -> done = normalized v.
Proof.
  intros f kw v lc s self given. unfold MapCompose_call.
  cbn [MapCompose_functions self MapCompose_init map MapCompose_loop].
  rewrite py_iter_arg_to_iter. unfold bind.
  destruct (MapCompose_inner_calls (MapCompose_context self lc) f
              (normalized v) [] s) as (done & Hpre & Hcalls & Hall).
  exists done. split; [exact Hpre |].
  destruct (MapCompose_inner (wrap_loader_context f (MapCompose_context self lc))
              (normalized v) [] s) as [[next | e] s1]; simpl in *.
  - split; [exact Hcalls |]. intros r _. now apply (Hall next).
  - split; [exact Hcalls |]. intros r [=].
Qed.

Lemma concat_replicate_zero {A} (m : nat) (names : list A) :
  List.concat (zip_with replicate (replicate m 0%nat) names) = [].
Proof.
  revert names. induction m as [| m IH]; intros [| a names]; simpl; auto.
Qed.

Lemma MapCompose_inner_names ctx f (values acc : list pyval) s :
  exists new n,
    calls (MapCompose_inner (wrap_loader_context f ctx) values acc s).2
    = calls s ++ new
    /\ map ev_func new = replicate n (func_name f)
    /\ (n <= length values)%nat.
Proof.
  destruct (MapCompose_inner_calls ctx f values acc s)
    as (done & Hpre & Hcalls & _).
  eexists _, (length done). split; [exact Hcalls |]. split.
  - rewrite List.map_map. simpl. clear. induction done; simpl; congruence.
  - now apply prefix_length.
Qed.

Lemma MapCompose_loop_names ctx (l : list (pyfunc W)) (values : pyval) s :
  exists new counts,
    calls (MapCompose_loop (map (fun f => wrap_loader_context f ctx) l) values s).2
    = calls s ++ new
    /\ length counts = length l
    /\ map ev_func new
       = List.concat (zip_with replicate counts (map func_name l)).
Proof.
  revert values s. induction l as [| f l IH]; intros values s; simpl.
  - exists [], []. rewrite app_nil_r. repeat split.
  - destruct (py_iter values) as [vs |].
    + unfold bind.
      destruct (MapCompose_inner_names ctx f vs [] s) as (new & n & Hnew & Hn & _).
      destruct (MapCompose_inner (wrap_loader_context f ctx) vs [] s)
        as [[next | e] s1]; simpl in *.
      * destruct (IH (VList next) s1) as (new' & counts & Hnew' & Hlen & Hnames).
        exists (new ++ new'), (n :: counts). split; [| split].
        -- now rewrite Hnew', Hnew, app_assoc.
        -- simpl. now rewrite Hlen.
        -- rewrite map_app, Hn, Hnames. reflexivity.
      * exists new, (n :: replicate (length l) 0%nat). split; [exact Hnew |]. split.
        -- simpl. now rewrite length_replicate.
        -- simpl. now rewrite concat_replicate_zero, app_nil_r.
    + exists [], (replicate (S (length l)) 0%nat). simpl. rewrite app_nil_r.
      split; [reflexivity |]. split.
      * now rewrite length_replicate.
      * now rewrite concat_replicate_zero.
Qed.

(** X21: [MapCompose] runs stage by stage: all the calls of a function
    of the chain come before all the calls of the functions after it, so
    the names of the calls made are some number of times the first
    function, then some number of times the second, and so on. *)
Theorem MapCompose_calls_stage_by_stage :
  forall (self : MapCompose W) v lc s,
    exists new counts,
      calls (MapCompose_call self v lc s).2 = calls s ++ new
      /\ length counts = length (MapCompose_functions self)
      /\ map ev_func new
         = List.concat (zip_with replicate counts
                          (map func_name (MapCompose_functions self))).
Proof.
  intros self v lc s. unfold MapCompose_call. apply MapCompose_loop_names.
Qed.

Lemma Compose_MapCompose_loop ctx stop (l : list (pyfunc W)) v s :
  (forall f, f ∈ l -> returns_scalars f) ->
  is_None v = false ->
  MapCompose_loop (map (fun f => wrap_loader_context f ctx) l) (VList [v]) s
  = match Compose_loop stop (map (fun f => wrap_loader_context f ctx) l) v s with
    | (Return r, s') => (Return (VList [r]), s')
    | (Raise e, s') => (Raise e, s')
    end.
Proof.
  revert v s. induction l as [| f l IH]; intros v s Hl Hv; simpl.
  - reflexivity.
  - rewrite Hv. simpl. unfold bind.
    destruct (wrap_loader_context_call f ctx v s) as (r & w & Hcall & ->).
    destruct r as [r | e]; [| reflexivity].
    destruct (Hl f ltac:(left) _ _ _ _ _ Hcall) as [Hn Hs].
    unfold arg_to_iter. rewrite Hn, Hs. simpl. unfold ret.
    apply IH; [| exact Hn]. intros h Hh. apply Hl. now right.
Qed.

(** X22: on a scalar, when every function of the chain returns scalars
    only, [MapCompose] does what [Compose] does with the same functions
    and keyword arguments: the same calls, the same exception if one is
    raised, and as result the one-element list of the result of
    [Compose]. *)
Theorem MapCompose_on_scalar_is_Compose :
  forall fs kw v lc s,
    (forall f, f ∈ fs -> returns_scalars f) ->
    is_None v = false -> is_sequence v = false ->
    MapCompose_call (MapCompose_init fs kw) v lc s
    = match Compose_call (Compose_init fs kw) v lc s with
      | (Return r, s') => (Return (VList [r]), s')
      | (Raise e, s') => (Raise e, s')
      end.
Proof.
  intros fs kw v lc s Hfs Hn Hs. unfold MapCompose_call, Compose_call.
  unfold arg_to_iter. rewrite Hn, Hs.
  cbn [MapCompose_functions MapCompose_init Compose_functions Compose_init
       Compose_stop_on_none].
  change (MapCompose_context (MapCompose_init fs kw) lc)
    with (Compose_context (Compose_init fs kw) lc).
  now apply Compose_MapCompose_loop.
Qed.

End PipelineStages.

Section PipelineStateless.

Context {W : Type}.

Implicit Types (f : pyfunc W) (s : store W) (ctx : context).

Lemma stateless_wrap f ctx (x : pyval) :
  stateless f ->
  exists r, forall s, exists s', wrap_loader_context f ctx x s = (Return r, s').
Proof.
  intros Hf.
  destruct (Hf x (if declares_loader_context f then Some ctx else None)) as [r Hr].
  exists r. intros s. destruct (Hr (world s)) as [w' Hw].
  eexists. apply wrap_loader_context_run. exact Hw.
Qed.

Lemma MapCompose_inner_stateless f ctx (xs : list pyval) :
  stateless f ->
  exists rs, forall acc s, exists s',
    MapCompose_inner (wrap_loader_context f ctx) xs acc s
    = (Return (acc ++ flat_map normalized rs), s').
Proof.
  intros Hf. induction xs as [| x xs [rs Hrs]].
  - exists []. intros acc s. exists s. simpl. now rewrite app_nil_r.
  - destruct (stateless_wrap f ctx x Hf) as [r Hr].
    exists (r :: rs). intros acc s. destruct (Hr s) as [s1 H1].
    destruct (Hrs (acc ++ normalized r) s1) as [s' H'].
    exists s'. simpl. unfold bind. rewrite H1, py_iter_arg_to_iter, H'.
    now rewrite app_assoc.
Qed.

Lemma MapCompose_loop_stateless ctx (l : list (pyfunc W)) :
  (forall f, f ∈ l -> stateless f) ->
  forall xs, exists out, forall s, exists s',
    MapCompose_loop (map (fun f => wrap_loader_context f ctx) l) (VList xs) s
    = (Return (VList out), s').
Proof.
  induction l as [| f l IH]; intros Hl xs.
  - exists xs. intros s. now exists s.
  - assert (Hl' : forall h, h ∈ l -> stateless h)
      by (intros h Hh; apply Hl; now right).
    destruct (MapCompose_inner_stateless f ctx xs (Hl f ltac:(left))) as [rs Hrs].
    destruct (IH Hl' (flat_map normalized rs)) as [out Hout].
    exists out. intros s. destruct (Hrs [] s) as [s1 H1].
    simpl. unfold bind. rewrite H1. simpl. apply Hout.
Qed.

Lemma MapCompose_loop_additive ctx (l : list (pyfunc W)) :
  (forall f, f ∈ l -> stateless f) ->
  forall xs ys a b (s0 : store W),
    (forall s, exists s',
       MapCompose_loop (map (fun f => wrap_loader_context f ctx) l) (VList xs) s
       = (Return (VList a), s')) ->
    (forall s, exists s',
       MapCompose_loop (map (fun f => wrap_loader_context f ctx) l) (VList ys) s
       = (Return (VList b), s')) ->
    forall s, exists s',
      MapCompose_loop (map (fun f => wrap_loader_context f ctx) l)
        (VList (xs ++ ys)) s
      = (Return (VList (a ++ b)), s').
Proof.
  induction l as [| f l IH]; intros Hl xs ys a b s0 Hx Hy s.
  - destruct (Hx s0) as [? [= <- _]]. destruct (Hy s0) as [? [= <- _]].
    now exists s.
  - assert (Hl' : forall h, h ∈ l -> stateless h)
      by (intros h Hh; apply Hl; now right).
    destruct (MapCompose_inner_stateless f ctx xs (Hl f ltac:(left))) as [rsx Hrsx].
    destruct (MapCompose_inner_stateless f ctx ys (Hl f ltac:(left))) as [rsy Hrsy].
    assert (Hnext : forall zs rs c,
              (forall acc s, exists s',
                 MapCompose_inner (wrap_loader_context f ctx) zs acc s
                 = (Return (acc ++ flat_map normalized rs), s')) ->
              (forall s, exists s',
                 MapCompose_loop (map (fun f => wrap_loader_context f ctx) (f :: l))
                   (VList zs) s = (Return (VList c), s')) ->
              forall s, exists s',
                MapCompose_loop (map (fun f => wrap_loader_context f ctx) l)
                  (VList (flat_map normalized rs)) s = (Return (VList c), s')).
    { intros zs rs c Hrs Hz.
      destruct (MapCompose_loop_stateless ctx l Hl' (flat_map normalized rs))
        as [c' Hc'].
      destruct (Hz s0) as [sz Hsz]. simpl in Hsz. unfold bind in Hsz.
      destruct (Hrs [] s0) as [s1 H1]. rewrite H1 in Hsz. simpl in Hsz.
      destruct (Hc' s1) as [s2 H2]. rewrite H2 in Hsz.
      injection Hsz as <- _. exact Hc'. }
    pose proof (Hnext xs rsx a Hrsx Hx) as Ha.
    pose proof (Hnext ys rsy b Hrsy Hy) as Hb.
    destruct (Hrsx [] s) as [s1 H1].
    destruct (Hrsy (flat_map normalized rsx) s1) as [s2 H2].
    simpl. unfold bind. rewrite MapCompose_inner_app, H1. cbv beta iota.
    change ([] ++ flat_map normalized rsx) with (flat_map normalized rsx).
    rewrite H2. cbv beta iota.
    apply (IH Hl' _ _ a b s0 Ha Hb).
Qed.

(** X23: when every function of the chain is stateless, [MapCompose]
    works item by item: its result does not depend on the store, and its
    result on the concatenation of two lists is the concatenation of its
    results on the two lists. *)
Theorem MapCompose_stateless_additive :
  forall (self : MapCompose W) lc xs ys a b s,
    (forall f, f ∈ MapCompose_functions self -> stateless f) ->
    (MapCompose_call self (VList xs) lc s).1 = Return (VList a) ->
    (MapCompose_call self (VList ys) lc s).1 = Return (VList b) ->
    forall s',
      (MapCompose_call self (VList (xs ++ ys)) lc s').1 = Return (VList (a ++ b)).
Proof.
  intros self lc xs ys a b s Hfs Hx Hy s'. unfold MapCompose_call in *.
  change (arg_to_iter (VList xs)) with (VList xs) in Hx.
  change (arg_to_iter (VList ys)) with (VList ys) in Hy.
  change (arg_to_iter (VList (xs ++ ys))) with (VList (xs ++ ys)).
  set (ctx := MapCompose_context self lc) in *.
  assert (Hout : forall zs c,
            (MapCompose_loop
               (map (fun f => wrap_loader_context f ctx) (MapCompose_functions self))
               (VList zs) s).1 = Return (VList c) ->
            forall s1, exists s2,
              MapCompose_loop
                (map (fun f => wrap_loader_context f ctx) (MapCompose_functions self))
                (VList zs) s1 = (Return (VList c), s2)).
  { intros zs c Hz.
    destruct (MapCompose_loop_stateless ctx _ Hfs zs) as [c' Hc'].
    destruct (Hc' s) as [s2 H2]. rewrite H2 in Hz. injection Hz as <-.
    exact Hc'. }
  destruct (MapCompose_loop_additive ctx _ Hfs xs ys a b s
              (Hout xs a Hx) (Hout ys b Hy) s') as [s2 H2].
  now rewrite H2.
Qed.

End PipelineStateless.

(** ** The further properties at the sample functions *)

Lemma Compose_never_passes_None_witness :
  exists new,
    calls (Compose_call (Compose_init [is_none; to_none; twice] ∅) (VInt 1) None start).2
    = calls start ++ new
    /\ Forall (fun ev => ev_value ev <> VNone) new.
Proof.
  apply (Compose_never_passes_None (Compose_init [is_none; to_none; twice] ∅)).
  reflexivity.
Defined.

Lemma Compose_calls_in_chain_order_witness :
  exists new,
    calls (Compose_call (Compose_init [is_none; twice] ∅) (VInt 1) None start).2
    = calls start ++ new
    /\ map ev_func new = ["is_none"; "twice"].
Proof.
  destruct (Compose_calls_in_chain_order (Compose_init [is_none; twice] ∅)
              (VInt 1) None start) as (new & Hnew & _ & Hall).
  exists new. split; [exact Hnew |].
  apply (Hall (VList [VBool false; VBool false])); [reflexivity | now left].
Defined.

Lemma exceptions_come_from_functions_witness :
  (exists f x c w done,
     f ∈ [twice; with_unit; to_none]
     /\ func_call f x c w = (Raise (Exception "KeyError" [VStr "unit"]), 2)
     /\ [Call "twice" (VInt 1) None;
         Call "with_unit" (VList [VInt 1; VInt 1]) (Some (PlainDict ∅))]
        = done ++ [Call (func_name f) x c])
  /\ (exists f x c w done,
        f ∈ [reject_two]
        /\ func_call f x c w = (Raise (Exception "ValueError" [VInt 2]), 2)
        /\ [Call "reject_two" (VInt 1) None; Call "reject_two" (VInt 2) None]
           = done ++ [Call (func_name f) x c]).
Proof.
  destruct (@exceptions_come_from_functions Z) as [HC HM]. split.
  - apply (HC (Compose_init [twice; with_unit; to_none] ∅) (VInt 1) None start
             (Exception "KeyError" [VStr "unit"])
             {| world := 2;
                calls := [Call "twice" (VInt 1) None;
                          Call "with_unit" (VList [VInt 1; VInt 1])
                            (Some (PlainDict ∅))] |}).
    reflexivity.
  - apply (HM (MapCompose_init [reject_two] ∅) (VTuple [VInt 1; VInt 2; VInt 3])
             None start (Exception "ValueError" [VInt 2])
             {| world := 2;
                calls := [Call "reject_two" (VInt 1) None;
                          Call "reject_two" (VInt 2) None] |}).
    reflexivity.
Defined.

Lemma MapCompose_of_nothing_witness :
  MapCompose_call (MapCompose_init [twice; reject_two] ∅) (VTuple []) None start
  = (Return (VList []), start).
Proof.
  apply (MapCompose_of_nothing (MapCompose_init [twice; reject_two] ∅)).
  - right. now right.
  - discriminate.
Defined.

Lemma MapCompose_calls_each_item_witness :
  exists done,
    done `prefix_of` [VInt 1; VNone]
    /\ calls (MapCompose_call (MapCompose_init [to_none] ∅)
                (VList [VInt 1; VNone]) None start).2
       = calls start ++ map (fun x => Call "to_none" x None) done
    /\ done = [VInt 1; VNone].
Proof.
  destruct (MapCompose_calls_each_item to_none ∅ (VList [VInt 1; VNone]) None start)
    as (done & Hpre & Hcalls & Hall).
  exists done. split; [exact Hpre |]. split; [exact Hcalls |].
  apply (Hall (VList [])). reflexivity.
Defined.

Lemma MapCompose_on_scalar_is_Compose_witness :
  MapCompose_call (MapCompose_init [is_none; is_none] ∅) (VInt 5) None start
  = (Return (VList [VBool false]),
     {| world := 2;
        calls := [Call "is_none" (VInt 5) None;
                  Call "is_none" (VBool false) None] |}).
Proof.
  rewrite (MapCompose_on_scalar_is_Compose [is_none; is_none] ∅ (VInt 5) None start).
  - reflexivity.
  - intros f Hf x c w r w' Hcall.
    assert (Hf' : f = is_none).
    { apply list_elem_of_In in Hf. destruct Hf as [<- | [<- | []]]; reflexivity. }
    subst f. injection Hcall as <- _. now split.
  - reflexivity.
  - reflexivity.
Defined.

Lemma MapCompose_stateless_additive_witness :
  (MapCompose_call (MapCompose_init [twice] ∅)
     (VList ([VInt 1] ++ [VInt 2; VInt 3])) None
     {| world := 7; calls := [] |}).1
  = Return (VList ([VInt 1; VInt 1] ++ [VInt 2; VInt 2; VInt 3; VInt 3])).
Proof.
  apply (MapCompose_stateless_additive (MapCompose_init [twice] ∅) None
           [VInt 1] [VInt 2; VInt 3] _ _ start).
  - intros f Hf x c. apply list_elem_of_singleton in Hf as ->.
    exists (VList [x; x]). intros w. eexists. reflexivity.
  - reflexivity.
  - reflexivity.
Defined.
